(** * Sunshine-App-Automation: the reconciliation core of [main.py]

    A shallow embedding of the identity extractor, the entry scorer, the
    deduplicator, the reconciler, the retry loops of the two network helpers
    and the orchestrator [main], followed by the properties the
    specification states about them.

    Conventions.
    - A Python [str] is a Rocq [string]; a character is a code point below
      256.  On that range [str.strip], [\d] and [re.IGNORECASE] behave
      exactly as modelled here (the only decimal digits are 0-9 and no
      character above 127 case-folds to an ASCII letter).
    - A launch entry is a JSON object whose fields hold strings: a
      [gmap string string]; [app.get(k)] is the lookup [app !! k].
    - A Python exception that the code does not catch is a [None] result
      (dedupe) or a fatal outcome (orchestrator). *)

From Stdlib Require Import Ascii String ZArith.
From stdpp Require Import gmap strings list fin_maps.

Open Scope string_scope.
Open Scope list_scope.

(** ** Python string primitives *)

Module Py.

Definition code (c : ascii) : nat := nat_of_ascii c.

(** [str.isspace] for one character. *)
Definition isspace (c : ascii) : bool :=
  let n := code c in
  (((9 <=? n) && (n <=? 13)) || ((28 <=? n) && (n <=? 32))
   || (n =? 133) || (n =? 160))%nat.

(** The class [\d], which is [str.isdecimal] for one character. *)
Definition isdecimal (c : ascii) : bool :=
  let n := code c in ((48 <=? n) && (n <=? 57))%nat.

Definition lower (c : ascii) : ascii :=
  let n := code c in
  if ((65 <=? n) && (n <=? 90))%nat then ascii_of_nat (n + 32) else c.

Fixpoint lstrip (s : string) : string :=
  match s with
  | "" => ""
  | String c s' => if isspace c then lstrip s' else s
  end.

Fixpoint rstrip (s : string) : string :=
  match s with
  | "" => ""
  | String c s' =>
      match rstrip s' with
      | "" => if isspace c then "" else String c ""
      | r => String c r
      end
  end.

(** [s.strip()] *)
Definition strip (s : string) : string := rstrip (lstrip s).

(** [needle in hay] *)
Fixpoint contains (needle hay : string) : bool :=
  String.prefix needle hay
  || match hay with
     | "" => false
     | String _ hay' => contains needle hay'
     end.

(** Truth value of an [Optional[str]]: [None] and [""] are false. *)
Definition truthy (o : option string) : bool :=
  match o with
  | Some (String _ _) => true
  | _ => false
  end.

(** [o or ""] *)
Definition or_empty (o : option string) : string :=
  match o with
  | Some s => s
  | None => ""
  end.

End Py.

(** ** Identity extractor *)

(** The literal part of [_STEAM_RUNGAME_RE]. *)
Definition RUNGAME_MARKER : string := "steam://rungameid/".

(** Match a literal at the head of [s], ignoring case; the rest of [s]. *)
Fixpoint match_literal_ci (pat s : string) : option string :=
  match pat with
  | "" => Some s
  | String p pat' =>
      match s with
      | "" => None
      | String c s' =>
          if bool_decide (Py.lower p = Py.lower c)
          then match_literal_ci pat' s'
          else None
      end
  end.

(** The greedy group [(\d+)]: the longest run of digits at the head. *)
Fixpoint take_digits (s : string) : string :=
  match s with
  | "" => ""
  | String c s' => if Py.isdecimal c then String c (take_digits s') else ""
  end.

(** The pattern anchored at the head of [s]; group 1 of the match. *)
Definition match_at (s : string) : option string :=
  match match_literal_ci RUNGAME_MARKER s with
  | Some rest =>
      match take_digits rest with
      | "" => None
      | d => Some d
      end
  | None => None
  end.

(** [_STEAM_RUNGAME_RE.search(s)]: the leftmost match. *)
Fixpoint re_search (s : string) : option string :=
  match match_at s with
  | Some d => Some d
  | None =>
      match s with
      | "" => None
      | String _ s' => re_search s'
      end
  end.

Definition extract_steam_app_id (cmd : string) : option string :=
  match cmd with
  | "" => None
  | _ => re_search cmd
  end.

(** ** Launch entries and the scorer *)

Abbreviation app := (gmap string string).

Definition _score_app_for_keep (a : app) : Z :=
  let score := 0%Z in
  let score := if Py.truthy (a !! "image-path") then (score + 10)%Z else score in
  let score := if Py.truthy (a !! "name") then (score + 3)%Z else score in
  score.

(** ** Deduplicator *)

Record dedupe_state := DedupeState {
  deduped : list app;
  removed : list app;
  steam_index : gmap string nat;
  other_seen : gset (string * string)
}.

Definition dedupe_init : dedupe_state :=
  DedupeState [] [] ∅ ∅.

(** One iteration of the loop body; [None] is an [IndexError] at
    [deduped[i]]. *)
Definition dedupe_step (st : dedupe_state) (a : app) : option dedupe_state :=
  let cmd := Py.strip (Py.or_empty (a !! "cmd")) in
  let name := Py.strip (Py.or_empty (a !! "name")) in
  let steam_id := extract_steam_app_id cmd in
  if Py.truthy steam_id then
    let sid := Py.or_empty steam_id in
    match steam_index st !! sid with
    | None =>
        Some (DedupeState (deduped st ++ [a]) (removed st)
                (<[sid := length (deduped st)]> (steam_index st))
                (other_seen st))
    | Some i =>
        match deduped st !! i with
        | None => None
        | Some current =>
            if (_score_app_for_keep current <? _score_app_for_keep a)%Z
            then Some (DedupeState (<[i := a]> (deduped st))
                         (removed st ++ [current])
                         (steam_index st) (other_seen st))
            else Some (DedupeState (deduped st) (removed st ++ [a])
                         (steam_index st) (other_seen st))
        end
    end
  else
    let key := (name, cmd) in
    if bool_decide (key ∈ other_seen st)
    then Some (DedupeState (deduped st) (removed st ++ [a])
                 (steam_index st) (other_seen st))
    else Some (DedupeState (deduped st ++ [a]) (removed st)
                 (steam_index st) ({[key]} ∪ other_seen st)).

Fixpoint dedupe_loop (st : dedupe_state) (apps : list app) : option dedupe_state :=
  match apps with
  | [] => Some st
  | a :: rest =>
      match dedupe_step st a with
      | Some st' => dedupe_loop st' rest
      | None => None
      end
  end.

Definition dedupe_sunshine_apps (apps : list app) : option (list app * list app) :=
  match dedupe_loop dedupe_init apps with
  | Some st => Some (deduped st, removed st)
  | None => None
  end.

(** ** Network helpers: the retry loops *)

(** What can go wrong with one HTTP exchange. *)
Inductive failure :=
| FTimeout      (* requests.get times out *)
| FConnection   (* connection refused, reset, DNS failure *)
| FHTTPStatus   (* raise_for_status() on a 4xx/5xx answer *)
| FBadJSON      (* resp.json() on a body that is not JSON *)
| FMalformed.   (* JSON of an unexpected shape: KeyError, TypeError, ... *)

(** The exception classes the [except] clauses tell apart. *)
Inductive exn_class := ExTimeout | ExRequestException | ExException.

(** The class of the exception raised.  [Response.json()] raises
    [requests.exceptions.JSONDecodeError], which derives from
    [InvalidJSONError] and so from [RequestException] (requests 2.27 and
    later); [ConnectionError] and [HTTPError] derive from
    [RequestException] as well. *)
Definition raised (f : failure) : exn_class :=
  match f with
  | FTimeout => ExTimeout
  | FConnection | FHTTPStatus | FBadJSON => ExRequestException
  | FMalformed => ExException
  end.

Inductive attempt (A : Type) :=
| Fails (f : failure)
| Responds (a : A).
Arguments Fails {A} f.
Arguments Responds {A} a.

(** What one pass through the [try] block does: [return] a value, or fall
    through to the backoff at the end of the loop body. *)
Inductive step_result :=
| Return (r : option string)
| Again.

(** The three [except] clauses shared by both helpers. *)
Definition handle (c : exn_class) : step_result :=
  match c with
  | ExTimeout => Again
  | ExRequestException => Again
  | ExException => Return None
  end.

Record fetch_run := FetchRun {
  fr_result : option string;   (* the returned value *)
  fr_requests : nat;           (* passes through the loop body *)
  fr_sleeps : list nat         (* arguments of time.sleep, in order *)
}.

(** [for attempt in todo: ...; if attempt < 2: time.sleep(2 ** attempt)] *)
Fixpoint attempts_loop (body : nat → step_result) (todo : list nat)
    (made : nat) (slept : list nat) : fetch_run :=
  match todo with
  | [] => FetchRun None made slept
  | n :: rest =>
      match body n with
      | Return r => FetchRun r (S made) slept
      | Again =>
          attempts_loop body rest (S made)
            (if (n <? 2)%nat then slept ++ [2 ^ n] else slept)
      end
  end.

(** One entry of the store's [appdetails] answer. *)
Record appdetails := AppDetails {
  ad_success : bool;
  ad_name : option string
}.

Definition name_body (net : nat → attempt (gmap string appdetails))
    (app_id : string) (n : nat) : step_result :=
  match net n with
  | Fails f => handle (raised f)
  | Responds data =>
      match data !! app_id with
      | Some d =>
          if ad_success d && Py.truthy (ad_name d)
          then Return (ad_name d)
          else Return None
      | None => Return None
      end
  end.

(** [net n] is the outcome of the request made by attempt [n].  The
    [lru_cache] wrapper only replays the result of a finished call. *)
Definition get_game_name (net : nat → attempt (gmap string appdetails))
    (app_id : string) : fetch_run :=
  attempts_loop (name_body net app_id) (seq 0 3) 0 [].

(** The downloaded bytes: whether [Image.open], [verify] and [save] go
    through. *)
Inductive image := ImgValid | ImgInvalid.

(** The listing answer (the urls under ["data"]) and the download of the
    first url. *)
Definition grid_exchange : Type := attempt (list string * attempt image).

Definition grid_body (net : nat → grid_exchange) (grid_path : string)
    (n : nat) : step_result :=
  match net n with
  | Fails f => handle (raised f)
  | Responds (urls, download) =>
      match urls with
      | [] => Return None
      | _ :: _ =>
          match download with
          | Fails f => handle (raised f)
          | Responds ImgInvalid => Return None
          | Responds ImgValid => Return (Some grid_path)
          end
      end
  end.

Definition fetch_grid_from_steamgriddb (net : nat → grid_exchange)
    (grid_path : string) : fetch_run :=
  attempts_loop (grid_body net grid_path) (seq 0 3) 0 [].

(** ** The outside world *)

Inductive event :=
| EvRestartSteam (exe : string)
| EvMakedirs (path : string)
| EvRemove (path : string)          (* os.remove went through *)
| EvRemoveFailed (path : string)    (* os.remove raised; a warning is logged *)
| EvWriteGrid (path : string)
| EvBackup (path : string)
| EvSaveConfig (path : string) (entries : list app)
| EvRestartSunshine (exe : string).

Record world := World {
  files : gset string;     (* paths for which os.path.exists holds *)
  locked : gset string;    (* paths whose removal raises *)
  trace : list event       (* effects so far, oldest first *)
}.

Definition emit (e : event) (w : world) : world :=
  World (files w) (locked w) (trace w ++ [e]).

(** [try: os.remove(p) except Exception: logging.warning(...)] *)
Definition try_remove (p : string) (w : world) : world :=
  if bool_decide (p ∈ locked w)
  then emit (EvRemoveFailed p) w
  else World (files w ∖ {[p]}) (locked w) (trace w ++ [EvRemove p]).

(** ** Reconciler *)

Record reconcile_state := ReconcileState {
  updated_apps : list app;
  removed_games : list (string * string);
  existing_steam_apps : gset string;
  rc_world : world
}.

Definition reconcile_step (installed_games : gmap string string)
    (st : reconcile_state) (a : app) : reconcile_state :=
  let cmd := Py.or_empty (a !! "cmd") in
  let app_id := extract_steam_app_id cmd in
  if Py.truthy app_id then
    let aid := Py.or_empty app_id in
    if bool_decide (aid ∈ dom installed_games) then
      ReconcileState (updated_apps st ++ [a]) (removed_games st)
        ({[aid]} ∪ existing_steam_apps st) (rc_world st)
    else
      let grid_path := a !! "image-path" in
      ReconcileState (updated_apps st)
        (removed_games st ++ [(default "Unknown" (a !! "name"), aid)])
        (existing_steam_apps st)
        (if Py.truthy grid_path
            && bool_decide (Py.or_empty grid_path ∈ files (rc_world st))
         then try_remove (Py.or_empty grid_path) (rc_world st)
         else rc_world st)
  else
    ReconcileState (updated_apps st ++ [a]) (removed_games st)
      (existing_steam_apps st) (rc_world st).

Definition process_existing_apps (sunshine_apps : list app)
    (installed_games : gmap string string) (w : world) : reconcile_state :=
  foldl (reconcile_step installed_games) (ReconcileState [] [] ∅ w) sunshine_apps.

(** ** Adding new games *)

Record platform := Platform {
  os_name : string;
  flatpak_list : option string;  (* stdout of [flatpak list]; None: no flatpak binary *)
  flatpak_raises : string → bool; (* in the call made for this game,
                                    subprocess.run raises something other
                                    than FileNotFoundError: PermissionError,
                                    UnicodeDecodeError, ... *)
  os_path_join : string → string → string;  (* os.path.join *)
  os_path_dirname : string → string         (* os.path.dirname *)
}.

(** [build_cmd] returns a command or lets an exception through.  Only
    [FileNotFoundError] is caught around the flatpak probe, so off Windows
    any other exception of [subprocess.run] leaves the function. *)
Definition build_cmd_raises (pf : platform) (app_id : string) : bool :=
  negb (bool_decide (os_name pf = "nt")) && flatpak_raises pf app_id.

(** The command [build_cmd] returns when it returns. *)
Definition build_cmd (pf : platform) (app_id : string) : string :=
  if bool_decide (os_name pf = "nt") then
    "steam://rungameid/" +:+ app_id
  else
    match flatpak_list pf with
    | Some out =>
        if Py.contains "com.valvesoftware.Steam" out
        then "flatpak run com.valvesoftware.Steam steam://rungameid/" +:+ app_id
        else "steam steam://rungameid/" +:+ app_id
    | None => "steam steam://rungameid/" +:+ app_id
    end.

(** The dict literal appended to [new_apps]. *)
Definition new_app (game_name cmd : string) (grid_path : option string) : app :=
  {[ "name" := game_name;
     "cmd" := cmd;
     "output" := "";
     "detached" := "";
     "elevated" := "false";
     "hidden" := "true";
     "wait-all" := "true";
     "exit-timeout" := "5";
     "image-path" := Py.or_empty grid_path ]}.

(** [os.path.join(grids_folder, f"{app_id}.png")] *)
Definition grid_target (pf : platform) (grids_folder app_id : string) : string :=
  os_path_join pf grids_folder (app_id +:+ ".png").

(** The body of the [as_completed] loop for one finished future.  The
    artwork has been fetched by then; a missing name ([KeyError]) or an
    exception out of [build_cmd] is caught by [except Exception] and the
    game is skipped. *)
Definition add_step (pf : platform) (installed_games : gmap string string)
    (grid_net : string → nat → grid_exchange) (grids_folder : string)
    (acc : list app * world) (app_id : string) : list app * world :=
  let '(new_apps, w) := acc in
  let target := grid_target pf grids_folder app_id in
  let grid_path := fr_result (fetch_grid_from_steamgriddb (grid_net app_id) target) in
  let w' :=
    match grid_path with
    | Some p => World ({[p]} ∪ files w) (locked w) (trace w ++ [EvWriteGrid p])
    | None => w
    end in
  match installed_games !! app_id with
  | Some game_name =>
      if build_cmd_raises pf app_id then (new_apps, w')
      else (new_apps ++ [new_app game_name (build_cmd pf app_id) grid_path], w')
  | None => (new_apps, w')
  end.

(** [order] is the order in which the futures complete, some enumeration
    of [new_games] that the code does not determine. *)
Definition add_new_games (pf : platform) (new_games : gset string)
    (order : list string) (installed_games : gmap string string)
    (grid_net : string → nat → grid_exchange) (grids_folder : string)
    (w : world) : list app * world :=
  if bool_decide (new_games = ∅) then ([], w)
  else foldl (add_step pf installed_games grid_net grids_folder) ([], w) order.

(** ** Orchestrator *)

Record args := Args {
  verbose : bool;
  no_restart : bool;
  dry_run : bool
}.

Record config := Config {
  STEAM_LIBRARY_VDF_PATH : string;
  SUNSHINE_APPS_JSON_PATH : string;
  SUNSHINE_GRIDS_FOLDER : string;
  STEAMGRIDDB_API_KEY : string;
  STEAM_EXE_PATH : string;
  SUNSHINE_EXE_PATH : string
}.

(** Everything [main] reads from outside. *)
Record environment := Environment {
  env_config : option config;            (* validate_config; None: sys.exit(1) *)
  env_platform : platform;
  env_library : option (list string);    (* app ids of the manifest; None: unreadable *)
  env_name_net : string → nat → attempt (gmap string appdetails);
  env_stored : option (list app);        (* get_sunshine_config()["apps"]; None: raises *)
  env_makedirs_ok : bool;
  env_grid_net : string → nat → grid_exchange;
  env_order : gset string → list string; (* completion order of the fetch futures *)
  env_save_ok : bool;                    (* whether open(path, "w") and json.dump go through *)
  env_copy_ok : bool;                    (* whether shutil.copy2 goes through *)
  env_parent_ok : bool                   (* whether the parent directory can be made *)
}.

(** [Interrupted] is the [except KeyboardInterrupt] clause. *)
Inductive outcome := UpToDate | DryRun | Completed | Fatal | Interrupted.

Definition exit_code (o : outcome) : nat :=
  match o with
  | Fatal | Interrupted => 1
  | _ => 0
  end.

Definition restart_steam (pf : platform) (steam_exe_path : string) (w : world) : world :=
  if negb (bool_decide (os_name pf = "nt")) then w
  else if bool_decide (steam_exe_path = "")
          || negb (bool_decide (steam_exe_path ∈ files w)) then w
  else emit (EvRestartSteam steam_exe_path) w.

Definition restart_sunshine (pf : platform) (sunshine_exe_path : string) (w : world) : world :=
  if negb (bool_decide (os_name pf = "nt")) then w
  else if bool_decide (sunshine_exe_path = "")
          || negb (bool_decide (sunshine_exe_path ∈ files w)) then w
  else emit (EvRestartSunshine sunshine_exe_path) w.

Definition load_installed_games (library : option (list string))
    (name_net : string → nat → attempt (gmap string appdetails))
    : option (gmap string string) :=
  match library with
  | None => None
  | Some ids =>
      Some (foldl (λ (installed_games : gmap string string) app_id,
                     let name := fr_result (get_game_name (name_net app_id) app_id) in
                     if Py.truthy name
                     then <[app_id := Py.or_empty name]> installed_games
                     else installed_games)
                  ∅ ids)
  end.

(** [os.makedirs(path, exist_ok=True)]; [None] when it raises. *)
Definition makedirs (ok : bool) (path : string) (w : world) : option world :=
  if negb ok then None
  else if bool_decide (path ∈ files w) then Some w
  else Some (World ({[path]} ∪ files w) (locked w) (trace w ++ [EvMakedirs path])).

(** [os.makedirs(os.path.dirname(path), exist_ok=True)]: an empty directory
    part always raises ([FileNotFoundError]). *)
Definition make_parent (e : environment) (path : string) (w : world) : option world :=
  let parent := os_path_dirname (env_platform e) path in
  if bool_decide (parent = "") then None
  else makedirs (env_parent_ok e) parent w.

(** The flag is false when the function raises: in the backup copy, in
    the creation of the parent directory, or in the write.  A copy or a
    write that fails is taken to leave no file behind. *)
Definition save_sunshine_config (e : environment) (path : string) (entries : list app)
    (w : world) : bool * world :=
  if bool_decide (path ∈ files w) && negb (env_copy_ok e) then (false, w)
  else
    let w1 :=
      if bool_decide (path ∈ files w)
      then World ({[path +:+ ".backup"]} ∪ files w) (locked w)
             (trace w ++ [EvBackup (path +:+ ".backup")])
      else w in
    match make_parent e path w1 with
    | None => (false, w1)
    | Some w2 =>
        if env_save_ok e
        then (true, World ({[path]} ∪ files w2) (locked w2)
                      (trace w2 ++ [EvSaveConfig path entries]))
        else (false, w2)
    end.

(** What [main] knows when it reaches [changes_needed]. *)
Record plan := Plan {
  pl_config : config;
  pl_installed : gmap string string;
  pl_sunshine_apps : list app;        (* sunshine_config["apps"] after the first dedupe *)
  pl_removed_dupes : list app;
  pl_reconciled : reconcile_state;
  pl_new_games : gset string
}.

Definition changes_needed (p : plan) : bool :=
  negb (bool_decide (pl_removed_dupes p = []))
  || negb (bool_decide (removed_games (pl_reconciled p) = []))
  || negb (bool_decide (pl_new_games p = ∅)).

(** [main] up to the computation of [new_games]; on the left the world in
    which a fatal error struck. *)
Definition main_plan (a : args) (e : environment) (w : world) : world + plan :=
  match env_config e with
  | None => inl w
  | Some config =>
      let w :=
        if no_restart a then w
        else restart_steam (env_platform e) (STEAM_EXE_PATH config) w in
      match load_installed_games (env_library e) (env_name_net e) with
      | None => inl w
      | Some installed_games =>
          match env_stored e with
          | None => inl w
          | Some stored =>
              match dedupe_sunshine_apps stored with
              | None => inl w
              | Some (sunshine_apps, removed_dupes) =>
                  match makedirs (env_makedirs_ok e) (SUNSHINE_GRIDS_FOLDER config) w with
                  | None => inl w
                  | Some w =>
                      let rc := process_existing_apps sunshine_apps installed_games w in
                      let new_games := dom installed_games ∖ existing_steam_apps rc in
                      inr (Plan config installed_games sunshine_apps removed_dupes rc new_games)
                  end
              end
          end
      end
  end.

Definition main (a : args) (e : environment) (w : world) : outcome * world :=
  match main_plan a e w with
  | inl w => (Fatal, w)
  | inr p =>
      let w := rc_world (pl_reconciled p) in
      if negb (changes_needed p) then (UpToDate, w)
      else if dry_run a then (DryRun, w)
      else
        let '(new_apps, w) :=
          add_new_games (env_platform e) (pl_new_games p)
            (env_order e (pl_new_games p)) (pl_installed p) (env_grid_net e)
            (SUNSHINE_GRIDS_FOLDER (pl_config p)) w in
        match dedupe_sunshine_apps (updated_apps (pl_reconciled p) ++ new_apps) with
        | None => (Fatal, w)
        | Some (final_apps, removed_after) =>
            let '(saved, w) :=
              save_sunshine_config e
                (SUNSHINE_APPS_JSON_PATH (pl_config p)) final_apps w in
            if saved then
              (Completed,
               if no_restart a then w
               else restart_sunshine (env_platform e)
                      (SUNSHINE_EXE_PATH (pl_config p)) w)
            else (Fatal, w)
        end
  end.

(** [main] with its [except KeyboardInterrupt] clause.  [main] above is
    the run that the user does not interrupt; [interrupt] is the state of
    the disk and of the trace at the moment the user interrupts the [try]
    block, if they do: the run then ends there, with exit code 1. *)
Definition main_interruptible (a : args) (e : environment) (w : world)
    (interrupt : option world) : outcome * world :=
  match interrupt with
  | Some w' => (Interrupted, w')
  | None => main a e w
  end.

(** Whether an event writes the entry list or restarts the target
    launcher. *)
Definition is_write_or_restart (ev : event) : bool :=
  match ev with
  | EvBackup _ | EvSaveConfig _ _ | EvRestartSunshine _ => true
  | _ => false
  end.

(** ** Configuration *)

(** What [validate_config] asks of the operating system: the environment
    after [_load_env], the composition of [os.path.expandvars],
    [os.path.expanduser] and [os.path.normpath], [os.path.dirname] and
    [os.path.exists]. *)
Record os_env := OsEnv {
  os_getenv : string → option string;
  os_normalize : string → string;
  os_dirname : string → string;
  os_exists : string → bool
}.

(** [path.replace("\\\\", "\\")]: every doubled backslash, scanning from the
    left without overlap, becomes a single one. *)
Fixpoint unescape_backslashes (path : string) : string :=
  match path with
  | "" => ""
  | String c rest =>
      match rest with
      | String c' rest' =>
          if bool_decide (c = "\"%char) && bool_decide (c' = "\"%char)
          then String "\" (unescape_backslashes rest')
          else String c (unescape_backslashes rest)
      | "" => String c ""
      end
  end.

Definition normalize_path (os : os_env) (path : string) : string :=
  match path with
  | "" => path
  | _ => os_normalize os (unescape_backslashes path)
  end.

(** [s.endswith(suffix)] *)
Fixpoint ends_with (suffix s : string) : bool :=
  bool_decide (s = suffix)
  || match s with
     | "" => false
     | String _ s' => ends_with suffix s'
     end.

Fixpoint getenv_first (os : os_env) (names : list string) : option string :=
  match names with
  | [] => None
  | name :: rest =>
      if Py.truthy (os_getenv os name) then os_getenv os name
      else getenv_first os rest
  end.

(** The table [required_vars] with the texts of [descriptions]. *)
Definition required_vars : list (string * list string * string) :=
  [ ("STEAM_LIBRARY_VDF_PATH",
     ["STEAM_LIBRARY_VDF_PATH"; "steam_library_vdf_path"; "library_vdf_path"],
     "Steam library VDF file path");
    ("SUNSHINE_APPS_JSON_PATH",
     ["SUNSHINE_APPS_JSON_PATH"; "sunshine_apps_json_path"; "apps_json_path"],
     "Sunshine apps.json file path");
    ("SUNSHINE_GRIDS_FOLDER",
     ["SUNSHINE_GRIDS_FOLDER"; "sunshine_grids_folder"; "grids_folder"],
     "Sunshine grids folder path");
    ("STEAMGRIDDB_API_KEY",
     ["STEAMGRIDDB_API_KEY"; "steamgriddb_api_key"],
     "SteamGridDB API key") ].

(** One turn of the loop over [required_vars]. *)
Definition validate_step (os : os_env) (acc : gmap string string * list string)
    (entry : string * list string * string) : gmap string string * list string :=
  let '(canonical, aliases, description) := entry in
  let value := getenv_first os aliases in
  if negb (Py.truthy value) then
    (acc.1, acc.2 ++ [canonical +:+ " (" +:+ description +:+ ")"])
  else
    let value :=
      if ends_with "_PATH" canonical || ends_with "_FOLDER" canonical
      then normalize_path os (Py.or_empty value)
      else Py.or_empty value in
    (<[canonical := value]> acc.1, acc.2).

Inductive validation :=
| Invalid (missing : list string)        (* sys.exit(1): missing variables *)
| LibraryNotFound (path : string)        (* sys.exit(1): no library manifest *)
| ConfigDirNotFound (dir : string)       (* sys.exit(1): no config directory *)
| KeyError                               (* a key absent from the dict *)
| Valid (c : config).

(** The record [main] reads out of the returned dict. *)
Definition to_config (cfg : gmap string string) : option config :=
  match cfg !! "STEAM_LIBRARY_VDF_PATH", cfg !! "SUNSHINE_APPS_JSON_PATH",
        cfg !! "SUNSHINE_GRIDS_FOLDER", cfg !! "STEAMGRIDDB_API_KEY",
        cfg !! "STEAM_EXE_PATH", cfg !! "SUNSHINE_EXE_PATH" with
  | Some vdf, Some apps_json, Some grids, Some key, Some steam, Some sunshine =>
      Some (Config vdf apps_json grids key steam sunshine)
  | _, _, _, _, _, _ => None
  end.

Definition optional_exe (os : os_env) (names : list string) : string :=
  let exe := Py.or_empty (getenv_first os names) in
  match exe with
  | "" => ""
  | _ => normalize_path os exe
  end.

Definition validate_config (os : os_env) : validation :=
  let acc := foldl (validate_step os) (∅, []) required_vars in
  let config := acc.1 in
  let missing := acc.2 in
  let config :=
    <["STEAM_EXE_PATH" := optional_exe os ["STEAM_EXE_PATH"; "steam_exe_path"]]> config in
  let config :=
    <["SUNSHINE_EXE_PATH" := optional_exe os ["SUNSHINE_EXE_PATH"; "sunshine_exe_path"]]>
      config in
  match missing with
  | _ :: _ => Invalid missing
  | [] =>
      match config !! "STEAM_LIBRARY_VDF_PATH", config !! "SUNSHINE_APPS_JSON_PATH" with
      | Some vdf, Some apps_json =>
          if negb (os_exists os vdf) then LibraryNotFound vdf
          else
            let apps_dir := os_dirname os apps_json in
            if Py.truthy (Some apps_dir) && negb (os_exists os apps_dir)
            then ConfigDirNotFound apps_dir
            else match to_config config with
                 | Some c => Valid c
                 | None => KeyError
                 end
      | _, _ => KeyError
      end
  end.

(** ** Vocabulary of the statements *)

(** The identifier the deduplicator sees in an entry. *)
Definition dedupe_id (a : app) : option string :=
  extract_steam_app_id (Py.strip (Py.or_empty (a !! "cmd"))).

(** The pair that keys an opaque entry. *)
Definition opaque_key (a : app) : string * string :=
  (Py.strip (Py.or_empty (a !! "name")), Py.strip (Py.or_empty (a !! "cmd"))).

(** The key under which the deduplicator files an entry. *)
Definition dedupe_key (a : app) : string + string * string :=
  match dedupe_id a with
  | Some id => inl id
  | None => inr (opaque_key a)
  end.

(** The identifier the reconciler sees in an entry. *)
Definition reconcile_id (a : app) : option string :=
  extract_steam_app_id (Py.or_empty (a !! "cmd")).

(** Entries used in examples. *)
Definition mk_app (name cmd image : string) : app :=
  {[ "name" := name; "cmd" := cmd; "image-path" := image ]}.

(** The keys of the kept list, in order. *)
Definition keys (l : list app) : list (string + string * string) :=
  dedupe_key <$> l.

(** What the two lookup tables record about the kept list. *)
Record dedupe_inv (st : dedupe_state) : Prop := DedupeInv {
  inv_index : ∀ id i, steam_index st !! id = Some i ↔ keys (deduped st) !! i = Some (inl id);
  inv_seen : ∀ k, k ∈ other_seen st ↔ inr k ∈ keys (deduped st);
  inv_nodup : NoDup (keys (deduped st))
}.

(** The reconciler's verdict on one entry, read off the installed-game
    map alone. *)
Definition is_kept (installed_games : gmap string string) (a : app) : bool :=
  match reconcile_id a with
  | Some id => bool_decide (id ∈ dom installed_games)
  | None => true
  end.

Definition matched_id (installed_games : gmap string string) (a : app) : option string :=
  match reconcile_id a with
  | Some id => if bool_decide (id ∈ dom installed_games) then Some id else None
  | None => None
  end.

Definition dropped_pair (installed_games : gmap string string) (a : app)
    : option (string * string) :=
  match reconcile_id a with
  | Some id =>
      if bool_decide (id ∈ dom installed_games) then None
      else Some (default "Unknown" (a !! "name"), id)
  | None => None
  end.

(** The artwork path of a dropped entry. *)
Definition dropped_artwork (installed_games : gmap string string) (a : app)
    : option string :=
  match dropped_pair installed_games a with
  | Some _ => if Py.truthy (a !! "image-path") then a !! "image-path" else None
  | None => None
  end.

(** The identifiers of the tracked entries of a list. *)
Definition tracked_ids (l : list app) : gset string :=
  list_to_set (omap reconcile_id l).

Definition is_removal (ev : event) : bool :=
  match ev with
  | EvRemove _ | EvRemoveFailed _ => true
  | _ => false
  end.

(** [s.isdecimal()]: non-empty and made of decimal digits only. *)
Fixpoint all_decimal (s : string) : bool :=
  match s with
  | "" => true
  | String c s' => Py.isdecimal c && all_decimal s'
  end.

Definition isdecimal (s : string) : bool :=
  match s with
  | "" => false
  | _ => all_decimal s
  end.

#[global] Instance event_eq_dec : EqDecision event.
Proof. solve_decision. Defined.
#[global] Instance outcome_eq_dec : EqDecision outcome.
Proof. solve_decision. Defined.
#[global] Instance world_eq_dec : EqDecision world.
Proof. solve_decision. Defined.
#[global] Instance fetch_run_eq_dec : EqDecision fetch_run.
Proof. solve_decision. Defined.

(** What a run of the reconciler's loop adds to its four results. *)
Definition reconcile_extends (installed : gmap string string) (apps : list app)
    (st st' : reconcile_state) : Prop :=
  updated_apps st' = updated_apps st ++ filter (λ a, is_kept installed a = true) apps ∧
  removed_games st' = removed_games st ++ omap (dropped_pair installed) apps ∧
  existing_steam_apps st' =
    existing_steam_apps st ∪ list_to_set (omap (matched_id installed) apps) ∧
  locked (rc_world st') = locked (rc_world st) ∧
  files (rc_world st') =
    files (rc_world st)
    ∖ (list_to_set (omap (dropped_artwork installed) apps) ∖ locked (rc_world st)) ∧
  ∃ evs, trace (rc_world st') = trace (rc_world st) ++ evs ∧
         Forall (λ ev, is_removal ev = true) evs.

(** The effects of [main] that precede the reconciler: the restart of the
    source launcher and the creation of the grids folder. *)
Definition is_startup_event (ev : event) : bool :=
  match ev with
  | EvRestartSteam _ | EvMakedirs _ => true
  | _ => false
  end.

(** A failure after which the loop goes round again. *)
Definition retryable (f : failure) : bool :=
  match raised f with
  | ExException => false
  | _ => true
  end.

(** [s] up to and including its last separator. *)
Fixpoint head_of_path (is_sep : ascii → bool) (s : string) : string :=
  match s with
  | "" => ""
  | String c r =>
      match head_of_path is_sep r with
      | "" => if is_sep c then String c "" else ""
      | h => String c h
      end
  end.

(** [s.rstrip(seps)] *)
Fixpoint rstrip_seps (is_sep : ascii → bool) (s : string) : string :=
  match s with
  | "" => ""
  | String c r =>
      match rstrip_seps is_sep r with
      | "" => if is_sep c then "" else String c ""
      | r' => String c r'
      end
  end.

Definition is_slash (c : ascii) : bool := Ascii.eqb c "/".

Definition is_nt_sep (c : ascii) : bool := Ascii.eqb c "\" || Ascii.eqb c "/".

(** [posixpath.join] of two components. *)
Definition posix_join (a b : string) : string :=
  if String.prefix "/" b then b
  else if bool_decide (a = "") || ends_with "/" a then a +:+ b
  else a +:+ "/" +:+ b.

(** [posixpath.dirname]: the part up to the last slash, without its
    trailing slashes unless it consists of slashes only. *)
Definition posix_dirname (p : string) : string :=
  let head := head_of_path is_slash p in
  match rstrip_seps is_slash head with
  | "" => head
  | h => h
  end.

(** [ntpath.join] and [ntpath.dirname] where the examples below use them:
    on relative paths without a drive or a colon, joined with a plain file
    name. *)
Definition nt_join (a b : string) : string :=
  if bool_decide (a = "") || ends_with "\" a || ends_with "/" a then a +:+ b
  else a +:+ "\" +:+ b.

Definition nt_dirname (p : string) : string :=
  rstrip_seps is_nt_sep (head_of_path is_nt_sep p).

(** A platform other than Windows, with the output of the flatpak probe,
    and Windows; the probe raises nothing unexpected. *)
Definition posix_platform (flatpak : option string) : platform :=
  Platform "posix" flatpak (λ _, false) posix_join posix_dirname.

Definition nt_platform : platform :=
  Platform "nt" None (λ _, false) nt_join nt_dirname.

(** A run with [--no-restart --dry-run] over a config that still lists an
    uninstalled game whose artwork file exists. *)
Definition dry_args : args := Args false true true.

Definition stale_env : environment :=
  {| env_config := Some (Config "lib.vdf" "apps.json" "grids" "key" "" "");
     env_platform := posix_platform None;
     env_library := Some [];
     env_name_net := λ _ _, Fails FTimeout;
     env_stored := Some [mk_app "Old" "steam://rungameid/300" "grids/300.png"];
     env_makedirs_ok := true;
     env_grid_net := λ _ _, Fails FTimeout;
     env_order := elements;
     env_save_ok := true;
     env_copy_ok := true;
     env_parent_ok := true |}.

Definition stale_world : world :=
  World {[ "apps.json"; "grids"; "grids/300.png" ]} ∅ [].

(** A run over three installed games of which two have an entry. *)
Definition abc_env : environment :=
  {| env_config := Some (Config "lib.vdf" "apps.json" "grids" "key" "" "");
     env_platform := posix_platform None;
     env_library := Some ["1"; "2"; "3"];
     env_name_net := λ id _, Responds {[ id := AppDetails true (Some ("Game" +:+ id)) ]};
     env_stored := Some [mk_app "Game1" "steam://rungameid/1" "";
                         mk_app "Game2" "steam steam://rungameid/2" ""];
     env_makedirs_ok := true;
     env_grid_net := λ _ _, Fails FTimeout;
     env_order := elements;
     env_save_ok := true;
     env_copy_ok := true;
     env_parent_ok := true |}.

(** The same three games, with the entry list in a folder of its own. *)
Definition full_env : environment :=
  {| env_config := Some (Config "lib.vdf" "cfg/apps.json" "grids" "key" "" "");
     env_platform := posix_platform None;
     env_library := Some ["1"; "2"; "3"];
     env_name_net := λ id _, Responds {[ id := AppDetails true (Some ("Game" +:+ id)) ]};
     env_stored := Some [mk_app "Game1" "steam://rungameid/1" "";
                         mk_app "Game2" "steam steam://rungameid/2" ""];
     env_makedirs_ok := true;
     env_grid_net := λ _ _, Fails FTimeout;
     env_order := elements;
     env_save_ok := true;
     env_copy_ok := true;
     env_parent_ok := true |}.

Definition full_world : world :=
  World {[ "cfg"; "cfg/apps.json"; "grids" ]} ∅ [].

(** A run in which nothing changed. *)
Definition same_env : environment :=
  {| env_config := Some (Config "lib.vdf" "apps.json" "grids" "key" "" "");
     env_platform := posix_platform None;
     env_library := Some ["1"];
     env_name_net := λ id _, Responds {[ id := AppDetails true (Some ("Game" +:+ id)) ]};
     env_stored := Some [mk_app "Game1" "steam://rungameid/1" ""; mk_app "Foo" "foo.sh" ""];
     env_makedirs_ok := true;
     env_grid_net := λ _ _, Fails FTimeout;
     env_order := elements;
     env_save_ok := true;
     env_copy_ok := true;
     env_parent_ok := true |}.

(** The same run on Windows, with the source launcher's executable
    configured and restarts not switched off. *)
Definition dry_restart_args : args := Args false false true.

Definition stale_nt_env : environment :=
  {| env_config := Some (Config "lib.vdf" "apps.json" "grids" "key" "steam.exe" "");
     env_platform := nt_platform;
     env_library := Some [];
     env_name_net := λ _ _, Fails FTimeout;
     env_stored := Some [mk_app "Old" "steam://rungameid/300" "grids/300.png"];
     env_makedirs_ok := true;
     env_grid_net := λ _ _, Fails FTimeout;
     env_order := elements;
     env_save_ok := true;
     env_copy_ok := true;
     env_parent_ok := true |}.

Definition stale_nt_world : world :=
  World {[ "apps.json"; "grids"; "grids/300.png"; "steam.exe" ]} ∅ [].

(** What the add phase appends: entries built for identifiers of the
    add-list, named after the installed game and tracked under that very
    identifier. *)
Definition built_for (order : list string) (installed : gmap string string)
    (a : app) : Prop :=
  ∃ id name, id ∈ order ∧ installed !! id = Some name ∧
             a !! "name" = Some name ∧
             reconcile_id a = Some id ∧ dedupe_id a = Some id.

(** [s] with its ASCII letters in lower case. *)
Fixpoint lower_string (s : string) : string :=
  match s with
  | "" => ""
  | String c s' => String (Py.lower c) (lower_string s')
  end.

(** No character of [pat] is white space. *)
Fixpoint no_space (pat : string) : bool :=
  match pat with
  | "" => true
  | String p pat' => negb (Py.isspace p) && no_space pat'
  end.

(** Every tracked entry of [seen] is matched in [kept] by an entry with the
    same identifier and at least its score. *)
Definition best_kept (seen kept : list app) : Prop :=
  ∀ e id, e ∈ seen → dedupe_id e = Some id →
    ∃ i c, kept !! i = Some c ∧ dedupe_id c = Some id ∧
           (_score_app_for_keep e ≤ _score_app_for_keep c)%Z.

(** What the add phase fetches and builds for one identifier. *)
Definition fetched_grid (pf : platform) (grid_net : string → nat → grid_exchange)
    (grids_folder app_id : string) : option string :=
  fr_result (fetch_grid_from_steamgriddb (grid_net app_id)
               (grid_target pf grids_folder app_id)).

Definition built_entry (pf : platform) (installed : gmap string string)
    (grid_net : string → nat → grid_exchange) (grids_folder app_id : string)
    : option app :=
  match installed !! app_id with
  | Some game_name =>
      if build_cmd_raises pf app_id then None
      else Some (new_app game_name (build_cmd pf app_id)
                   (fetched_grid pf grid_net grids_folder app_id))
  | None => None
  end.

(** [save_sunshine_config] raises: the backup copy, the creation of the
    parent directory or the write fails. *)
Definition save_raises (e : environment) (path : string) (w : world) : bool :=
  bool_decide (path ∈ files w) && negb (env_copy_ok e)
  || bool_decide (os_path_dirname (env_platform e) path = "")
  || negb (env_parent_ok e)
  || negb (env_save_ok e).

(** The state in which a run with changes due, outside a dry run, reaches
    [save_sunshine_config]. *)
Definition world_before_save (e : environment) (p : plan) : world :=
  (add_new_games (env_platform e) (pl_new_games p)
     (env_order e (pl_new_games p)) (pl_installed p) (env_grid_net e)
     (SUNSHINE_GRIDS_FOLDER (pl_config p)) (rc_world (pl_reconciled p))).2.

(** The environment [e] with another persisted entry list. *)
Definition with_stored (e : environment) (stored : list app) : environment :=
  Environment (env_config e) (env_platform e) (env_library e) (env_name_net e)
    (Some stored) (env_makedirs_ok e) (env_grid_net e) (env_order e) (env_save_ok e)
    (env_copy_ok e) (env_parent_ok e).

(** [w'] is [w] after some more events, all satisfying [P]. *)
Definition extends (P : event → Prop) (w w' : world) : Prop :=
  ∃ evs, trace w' = trace w ++ evs ∧ Forall P evs.

(** Under which flags, on which platform and in a run of which outcome an
    effect can occur. *)
Definition event_allowed (a : args) (e : environment) (o : outcome) (ev : event) : Prop :=
  match ev with
  | EvRestartSteam x =>
      no_restart a = false ∧ os_name (env_platform e) = "nt" ∧ x ≠ ""
  | EvRestartSunshine x =>
      no_restart a = false ∧ os_name (env_platform e) = "nt" ∧ x ≠ "" ∧ o = Completed
  | EvMakedirs _ | EvRemove _ | EvRemoveFailed _ => True
  | EvWriteGrid _ | EvBackup _ => dry_run a = false ∧ (o = Completed ∨ o = Fatal)
  | EvSaveConfig _ _ => dry_run a = false ∧ o = Completed
  end.

(** The line [validate_config] reports for a required variable that has
    no value under any of its names. *)
Definition missing_message (os : os_env) (entry : string * list string * string)
    : option string :=
  let '(canonical, aliases, description) := entry in
  if Py.truthy (getenv_first os aliases) then None
  else Some (canonical +:+ " (" +:+ description +:+ ")").

#[global] Instance config_eq_dec : EqDecision config.
Proof. solve_decision. Defined.
#[global] Instance validation_eq_dec : EqDecision validation.
Proof. solve_decision. Defined.

(** An operating system whose environment is the given list of settings,
    with the given existing paths; paths are already normal and every
    file lives in the directory [cfg]. *)
Definition os_of (settings : list (string * string)) (existing : list string) : os_env :=
  OsEnv (λ name, (list_to_map settings : gmap string string) !! name)
        id (λ _, "cfg") (λ path, bool_decide (path ∈ existing)).

Ltac decide_by_vm := apply (bool_decide_unpack _); vm_compute; exact I.

(** * Properties *)

(** ** The extractor *)

Lemma match_at_nonempty s d : match_at s = Some d → d ≠ "".
Proof.
  unfold match_at. destruct (match_literal_ci RUNGAME_MARKER s) as [rest|]; [|done].
  destruct (take_digits rest); naive_solver.
Qed.

Lemma re_search_nonempty s d : re_search s = Some d → d ≠ "".
Proof.
  induction s as [|c s IH]; simpl.
  - done.
  - destruct (match_at (String c s)) eqn:E; [|done].
    intros [= <-]. by eapply match_at_nonempty.
Qed.

Lemma extract_nonempty cmd d : extract_steam_app_id cmd = Some d → d ≠ "".
Proof. destruct cmd; [done|]. apply re_search_nonempty. Qed.

Lemma truthy_extract cmd d :
  extract_steam_app_id cmd = Some d → Py.truthy (Some d) = true.
Proof. intros H%extract_nonempty. by destruct d. Qed.

(** ** The deduplicator *)

Lemma dedupe_step_tracked st a id :
  dedupe_id a = Some id →
  dedupe_step st a =
    match steam_index st !! id with
    | None =>
        Some (DedupeState (deduped st ++ [a]) (removed st)
                (<[id := length (deduped st)]> (steam_index st)) (other_seen st))
    | Some i =>
        match deduped st !! i with
        | None => None
        | Some current =>
            if (_score_app_for_keep current <? _score_app_for_keep a)%Z
            then Some (DedupeState (<[i := a]> (deduped st)) (removed st ++ [current])
                         (steam_index st) (other_seen st))
            else Some (DedupeState (deduped st) (removed st ++ [a])
                         (steam_index st) (other_seen st))
        end
    end.
Proof.
  intros H. unfold dedupe_step. unfold dedupe_id in H. rewrite H.
  by rewrite (truthy_extract _ _ H).
Qed.

Lemma dedupe_step_opaque st a :
  dedupe_id a = None →
  dedupe_step st a =
    if bool_decide (opaque_key a ∈ other_seen st)
    then Some (DedupeState (deduped st) (removed st ++ [a])
                 (steam_index st) (other_seen st))
    else Some (DedupeState (deduped st ++ [a]) (removed st)
                 (steam_index st) ({[opaque_key a]} ∪ other_seen st)).
Proof.
  intros H. unfold dedupe_step. unfold dedupe_id in H. by rewrite H.
Qed.

Lemma dedupe_key_tracked a id : dedupe_id a = Some id → dedupe_key a = inl id.
Proof. unfold dedupe_key. by intros ->. Qed.

Lemma dedupe_key_opaque a : dedupe_id a = None → dedupe_key a = inr (opaque_key a).
Proof. unfold dedupe_key. by intros ->. Qed.

Lemma dedupe_key_inl a id : dedupe_key a = inl id ↔ dedupe_id a = Some id.
Proof. unfold dedupe_key. destruct (dedupe_id a); naive_solver. Qed.

Lemma dedupe_inv_init : dedupe_inv dedupe_init.
Proof.
  split; simpl.
  - intros id i. by rewrite lookup_empty.
  - intros k. rewrite elem_of_nil. set_solver.
  - constructor.
Qed.

Lemma keys_snoc l a : keys (l ++ [a]) = keys l ++ [dedupe_key a].
Proof. unfold keys. by rewrite fmap_app. Qed.

Lemma keys_length l : length (keys l) = length l.
Proof. unfold keys. by rewrite length_fmap. Qed.

Lemma keys_lookup l i k :
  keys l !! i = Some k ↔ ∃ a, l !! i = Some a ∧ dedupe_key a = k.
Proof. unfold keys. rewrite list_lookup_fmap, fmap_Some. naive_solver. Qed.

Lemma keys_replace l i a current :
  l !! i = Some current → dedupe_key a = dedupe_key current →
  keys (<[i := a]> l) = keys l.
Proof.
  intros Hi Hk. unfold keys. rewrite list_fmap_insert, Hk.
  apply list_insert_id. by rewrite list_lookup_fmap, Hi.
Qed.

(** A key not yet kept: the entry goes to the end of the kept list. *)
Lemma dedupe_step_fresh st a :
  dedupe_inv st → dedupe_key a ∉ keys (deduped st) →
  ∃ st', dedupe_step st a = Some st' ∧ dedupe_inv st' ∧
         deduped st' = deduped st ++ [a] ∧ removed st' = removed st.
Proof.
  intros [Hidx Hseen Hnd] Hfresh.
  destruct (dedupe_id a) as [id|] eqn:Hid.
  - rewrite (dedupe_key_tracked _ _ Hid) in Hfresh.
    rewrite (dedupe_step_tracked _ _ _ Hid).
    destruct (steam_index st !! id) as [i|] eqn:Hi.
    { apply Hidx in Hi. apply list_elem_of_lookup_2 in Hi. done. }
    eexists. split; [done|]. split; [|done]. split; simpl.
    + intros id' i. rewrite keys_snoc, (dedupe_key_tracked _ _ Hid).
      rewrite lookup_app_Some, keys_length, <-Hidx.
      destruct (decide (id = id')) as [<-|Hne].
      * rewrite lookup_insert_eq, Hi. split.
        -- intros [= <-]. right. split; [lia|]. by rewrite Nat.sub_diag.
        -- intros [?|[Hle Hl]]; [done|].
           apply list_lookup_singleton_Some in Hl as [? _]. f_equal. lia.
      * rewrite lookup_insert_ne by done. split; [by left|].
        intros [?|[_ Hl]]; [done|].
        apply list_lookup_singleton_Some in Hl as [_ ?]. congruence.
    + intros k. rewrite keys_snoc, (dedupe_key_tracked _ _ Hid).
      rewrite Hseen, elem_of_app, list_elem_of_singleton.
      split; [by left|]. intros [?|?]; [done|congruence].
    + rewrite keys_snoc, (dedupe_key_tracked _ _ Hid).
      apply NoDup_app. split; [done|]. split; [|apply NoDup_singleton].
      intros x Hx ->%list_elem_of_singleton. done.
  - rewrite (dedupe_key_opaque _ Hid) in Hfresh.
    rewrite (dedupe_step_opaque _ _ Hid).
    rewrite bool_decide_eq_false_2 by (by rewrite Hseen).
    eexists. split; [done|]. split; [|done]. split; simpl.
    + intros id i. rewrite keys_snoc, (dedupe_key_opaque _ Hid).
      rewrite lookup_app_Some, <-Hidx. split; [by left|].
      intros [?|[_ Hl]]; [done|].
      apply list_lookup_singleton_Some in Hl as [_ ?]. congruence.
    + intros k. rewrite keys_snoc, (dedupe_key_opaque _ Hid).
      rewrite elem_of_union, elem_of_singleton, elem_of_app, list_elem_of_singleton, Hseen.
      naive_solver.
    + rewrite keys_snoc, (dedupe_key_opaque _ Hid).
      apply NoDup_app. split; [done|]. split; [|apply NoDup_singleton].
      intros x Hx ->%list_elem_of_singleton. done.
Qed.

(** A key already kept: the kept list keeps its keys and its length, and
    exactly one entry goes to [removed]. *)
Lemma dedupe_step_seen st a :
  dedupe_inv st → dedupe_key a ∈ keys (deduped st) →
  ∃ st' gone, dedupe_step st a = Some st' ∧ dedupe_inv st' ∧
         keys (deduped st') = keys (deduped st) ∧
         removed st' = removed st ++ [gone] ∧
         (∀ x, x ∈ deduped st' → x ∈ deduped st ∨ x = a).
Proof.
  intros [Hidx Hseen Hnd] Hin.
  destruct (dedupe_id a) as [id|] eqn:Hid.
  - rewrite (dedupe_key_tracked _ _ Hid) in Hin.
    rewrite (dedupe_step_tracked _ _ _ Hid).
    apply list_elem_of_lookup_1 in Hin as [i Hi].
    rewrite (proj2 (Hidx id i) Hi).
    apply keys_lookup in Hi as (current & Hcur & Hkc). rewrite Hcur.
    destruct (_ <? _)%Z.
    + eexists _, current. split; [done|]. simpl.
      assert (keys (<[i:=a]> (deduped st)) = keys (deduped st)) as Hk.
      { eapply keys_replace; [done|]. by rewrite Hkc, (dedupe_key_tracked _ _ Hid). }
      split; [|split; [done|split; [done|]]].
      * split; simpl; by rewrite Hk.
      * intros x [j Hj]%list_elem_of_lookup_1.
        destruct (decide (i = j)) as [<-|Hne].
        -- rewrite list_lookup_insert_eq in Hj by (by eapply lookup_lt_Some).
           right. congruence.
        -- rewrite list_lookup_insert_ne in Hj by done.
           left. by eapply list_elem_of_lookup_2.
    + eexists _, a. split; [done|]. simpl. split; [done|]. auto.
  - rewrite (dedupe_key_opaque _ Hid) in Hin.
    rewrite (dedupe_step_opaque _ _ Hid).
    rewrite bool_decide_eq_true_2 by (by rewrite Hseen).
    eexists _, a. split; [done|]. simpl. split; [done|]. auto.
Qed.

Lemma dedupe_step_total st a :
  dedupe_inv st →
  ∃ st', dedupe_step st a = Some st' ∧ dedupe_inv st' ∧
         keys (deduped st) `prefix_of` keys (deduped st') ∧
         (∀ x, x ∈ deduped st' → x ∈ deduped st ∨ x = a) ∧
         (∀ k, k ∈ keys (deduped st') ↔ k ∈ keys (deduped st) ∨ k = dedupe_key a).
Proof.
  intros Hinv. destruct (decide (dedupe_key a ∈ keys (deduped st))) as [Hin|Hfresh].
  - destruct (dedupe_step_seen st a Hinv Hin) as (st' & gone & Hs & Hi & Hk & _ & Hsub).
    exists st'. rewrite Hk. split_and!; [done..|]. naive_solver.
  - destruct (dedupe_step_fresh st a Hinv Hfresh) as (st' & Hs & Hi & Hd & _).
    exists st'. rewrite Hd, keys_snoc. split_and!; [done|done|..].
    + by apply prefix_app_r.
    + intros x. rewrite elem_of_app, list_elem_of_singleton. done.
    + intros k. rewrite elem_of_app, list_elem_of_singleton. done.
Qed.

Lemma dedupe_loop_app st l1 l2 :
  dedupe_loop st (l1 ++ l2) =
    match dedupe_loop st l1 with
    | Some st' => dedupe_loop st' l2
    | None => None
    end.
Proof.
  revert st. induction l1 as [|a l1 IH]; intros st; simpl; [done|].
  destruct (dedupe_step st a); [apply IH|done].
Qed.

(** The loop never raises, keeps the invariant, never moves a kept key, and
    keeps exactly the keys it met. *)
Lemma dedupe_loop_inv l :
  ∀ st, dedupe_inv st →
  ∃ st', dedupe_loop st l = Some st' ∧ dedupe_inv st' ∧
         keys (deduped st) `prefix_of` keys (deduped st') ∧
         (∀ x, x ∈ deduped st' → x ∈ deduped st ∨ x ∈ l) ∧
         (∀ k, k ∈ keys (deduped st') ↔ k ∈ keys (deduped st) ∨ k ∈ keys l).
Proof.
  induction l as [|a l IH]; intros st Hinv; simpl.
  - exists st. split_and!; [done..| |].
    + auto.
    + intros k. rewrite elem_of_nil. naive_solver.
  - destruct (dedupe_step_total st a Hinv) as (st1 & -> & Hinv1 & Hp1 & Hs1 & Hk1).
    destruct (IH st1 Hinv1) as (st' & Hl & Hinv' & Hp & Hs & Hk).
    exists st'. split_and!; [done|done|..].
    + by etrans.
    + intros x Hx. rewrite elem_of_cons.
      destruct (Hs x Hx) as [H1|H1]; [|by auto].
      destruct (Hs1 x H1); auto.
    + intros k. rewrite Hk, Hk1, elem_of_cons. naive_solver.
Qed.

(** Entries with pairwise distinct, not yet kept keys are all kept, in
    order, and none is removed. *)
Lemma dedupe_loop_fresh l :
  ∀ st, dedupe_inv st → NoDup (keys (deduped st) ++ keys l) →
  ∃ st', dedupe_loop st l = Some st' ∧
         deduped st' = deduped st ++ l ∧ removed st' = removed st.
Proof.
  induction l as [|a l IH]; intros st Hinv Hnd; simpl.
  - exists st. by rewrite app_nil_r.
  - assert (dedupe_key a ∉ keys (deduped st)) as Hfresh.
    { apply NoDup_app in Hnd as (_ & Hdis & _). intros Hin.
      apply (Hdis _ Hin). left. }
    destruct (dedupe_step_fresh st a Hinv Hfresh) as (st1 & -> & Hinv1 & Hd1 & Hr1).
    destruct (IH st1 Hinv1) as (st' & Hl & Hd & Hr).
    { rewrite Hd1, keys_snoc, <-app_assoc. done. }
    exists st'. split; [done|]. rewrite Hd, Hr, Hd1, <-app_assoc. done.
Qed.

Lemma dedupe_sunshine_apps_Some apps :
  ∃ st, dedupe_loop dedupe_init apps = Some st ∧ dedupe_inv st ∧
        dedupe_sunshine_apps apps = Some (deduped st, removed st).
Proof.
  destruct (dedupe_loop_inv apps dedupe_init dedupe_inv_init) as (st & Hl & Hinv & _).
  exists st. unfold dedupe_sunshine_apps. by rewrite Hl.
Qed.

(** C4. Deduplication is idempotent: it never raises, and running it on
    the kept list of a first run returns that list unchanged together with
    an empty removed list. *)
Theorem dedupe_idempotent (apps : list app) :
  ∃ kept removed_,
    dedupe_sunshine_apps apps = Some (kept, removed_) ∧
    dedupe_sunshine_apps kept = Some (kept, []).
Proof.
  destruct (dedupe_sunshine_apps_Some apps) as (st & _ & Hinv & Hd).
  exists (deduped st), (removed st). split; [done|].
  destruct (dedupe_loop_fresh (deduped st) dedupe_init dedupe_inv_init) as (st' & Hl & Hk & Hr).
  { simpl. apply Hinv. }
  unfold dedupe_sunshine_apps. rewrite Hl, Hk, Hr. done.
Qed.

Lemma dedupe_loop_snoc st apps a :
  dedupe_loop dedupe_init apps = Some st →
  dedupe_sunshine_apps (apps ++ [a]) =
    match dedupe_step st a with
    | Some st' => Some (deduped st', removed st')
    | None => None
    end.
Proof.
  intros Hl. unfold dedupe_sunshine_apps. rewrite dedupe_loop_app, Hl. simpl.
  by destruct (dedupe_step st a).
Qed.

Lemma not_tracked_not_key (l : list app) id :
  Forall (λ e, dedupe_id e ≠ Some id) l → inl id ∉ keys l.
Proof.
  intros Hall (e & Hk & He)%list_elem_of_fmap.
  rewrite Forall_forall in Hall. apply (Hall e He). by apply dedupe_key_inl.
Qed.

(** C1. The rule for a tracked entry [a] met after the entries [apps].
    Either no earlier entry carries its identifier, and [a] is kept at the
    end of the kept list with [removed] untouched; or there is a first
    earlier entry with that identifier, which was kept at position
    [length kept0] (the end of what had been kept until then), and the
    entry [current] now at that position still carries the identifier:
    when [a] scores strictly higher it replaces [current] at that very
    position and [current] is appended to [removed], otherwise (ties
    included) the kept list is unchanged and [a] is appended to
    [removed]. *)
Theorem dedupe_tracked_rule (apps : list app) (a : app) (id : string) :
  dedupe_id a = Some id →
  ∃ kept removed_,
    dedupe_sunshine_apps apps = Some (kept, removed_) ∧
    ((Forall (λ e, dedupe_id e ≠ Some id) apps ∧
      dedupe_sunshine_apps (apps ++ [a]) = Some (kept ++ [a], removed_))
     ∨
     (∃ pre first post kept0 removed0 current,
        apps = pre ++ first :: post ∧
        Forall (λ e, dedupe_id e ≠ Some id) pre ∧
        dedupe_id first = Some id ∧
        dedupe_sunshine_apps pre = Some (kept0, removed0) ∧
        dedupe_sunshine_apps (pre ++ [first]) = Some (kept0 ++ [first], removed0) ∧
        kept !! length kept0 = Some current ∧
        dedupe_id current = Some id ∧
        dedupe_sunshine_apps (apps ++ [a]) =
          Some (if (_score_app_for_keep current <? _score_app_for_keep a)%Z
                then (<[length kept0 := a]> kept, removed_ ++ [current])
                else (kept, removed_ ++ [a])))).
Proof.
  intros Hid.
  destruct (dedupe_sunshine_apps_Some apps) as (st & Hloop & Hinv & Hd).
  exists (deduped st), (removed st). split; [done|].
  destruct (list_find (λ e, dedupe_id e = Some id) apps) as [[n first]|] eqn:Hfind.
  - right.
    apply list_find_Some in Hfind as (Hn & Hfirst & Hbefore).
    set (pre := take n apps). set (post := drop (S n) apps).
    assert (apps = pre ++ first :: post) as Happs
      by (symmetry; by apply take_drop_middle).
    assert (Forall (λ e, dedupe_id e ≠ Some id) pre) as Hpre.
    { apply Forall_forall. intros e [j Hj]%list_elem_of_lookup_1.
      pose proof (lookup_lt_Some _ _ _ Hj) as Hlt.
      unfold pre in Hj, Hlt. rewrite length_take in Hlt.
      rewrite lookup_take_lt in Hj by lia.
      eapply Hbefore; [done|lia]. }
    destruct (dedupe_loop_inv pre dedupe_init dedupe_inv_init)
      as (st0 & Hl0 & Hinv0 & _ & _ & Hk0).
    assert (dedupe_key first ∉ keys (deduped st0)) as Hfresh.
    { rewrite (dedupe_key_tracked _ _ Hfirst), Hk0. simpl.
      intros [Hc|Hc]; [by apply elem_of_nil in Hc|].
      by apply (not_tracked_not_key pre id). }
    destruct (dedupe_step_fresh st0 first Hinv0 Hfresh)
      as (st1 & Hs1 & Hinv1 & Hd1 & Hr1).
    destruct (dedupe_loop_inv post st1 Hinv1) as (st2 & Hl2 & _ & Hpre2 & _).
    assert (st2 = st) as ->.
    { rewrite Happs, dedupe_loop_app, Hl0 in Hloop. simpl in Hloop.
      rewrite Hs1, Hl2 in Hloop. congruence. }
    assert (keys (deduped st) !! length (deduped st0) = Some (inl id)) as Hpos.
    { eapply prefix_lookup_Some; [|done].
      rewrite Hd1, keys_snoc, (dedupe_key_tracked _ _ Hfirst).
      rewrite lookup_app_r by (by rewrite keys_length).
      by rewrite keys_length, Nat.sub_diag. }
    pose proof Hpos as (current & Hcur & Hkc)%keys_lookup.
    exists pre, first, post, (deduped st0), (removed st0), current.
    split_and!; [done|done|done|..].
    + unfold dedupe_sunshine_apps. by rewrite Hl0.
    + rewrite (dedupe_loop_snoc st0) by done. by rewrite Hs1, Hd1, Hr1.
    + done.
    + by apply dedupe_key_inl.
    + rewrite (dedupe_loop_snoc st) by done.
      rewrite (dedupe_step_tracked _ _ _ Hid).
      rewrite (proj2 (inv_index _ Hinv id _) Hpos), Hcur.
      by destruct (_ <? _)%Z.
  - left.
    apply list_find_None in Hfind.
    split; [done|].
    assert (dedupe_key a ∉ keys (deduped st)) as Hfresh.
    { destruct (dedupe_loop_inv apps dedupe_init dedupe_inv_init)
        as (st' & Hl' & _ & _ & _ & Hk).
      assert (st' = st) as -> by congruence.
      rewrite (dedupe_key_tracked _ _ Hid), Hk. simpl.
      intros [Hc|Hc]; [by apply elem_of_nil in Hc|].
      by apply (not_tracked_not_key apps id). }
    destruct (dedupe_step_fresh st a Hinv Hfresh) as (st1 & Hs1 & _ & Hd1 & Hr1).
    rewrite (dedupe_loop_snoc st) by done. by rewrite Hs1, Hd1, Hr1.
Qed.

Lemma dedupe_tracked_rule_witness :
  dedupe_id (mk_app "G" "steam://rungameid/10" "x.png") = Some "10" ∧
  ∃ kept removed_,
    dedupe_sunshine_apps [mk_app "G" "steam://rungameid/10" ""] = Some (kept, removed_) ∧
    ((Forall (λ e, dedupe_id e ≠ Some "10") [mk_app "G" "steam://rungameid/10" ""] ∧
      dedupe_sunshine_apps
        ([mk_app "G" "steam://rungameid/10" ""] ++ [mk_app "G" "steam://rungameid/10" "x.png"])
      = Some (kept ++ [mk_app "G" "steam://rungameid/10" "x.png"], removed_))
     ∨
     (∃ pre first post kept0 removed0 current,
        [mk_app "G" "steam://rungameid/10" ""] = pre ++ first :: post ∧
        Forall (λ e, dedupe_id e ≠ Some "10") pre ∧
        dedupe_id first = Some "10" ∧
        dedupe_sunshine_apps pre = Some (kept0, removed0) ∧
        dedupe_sunshine_apps (pre ++ [first]) = Some (kept0 ++ [first], removed0) ∧
        kept !! length kept0 = Some current ∧
        dedupe_id current = Some "10" ∧
        dedupe_sunshine_apps
          ([mk_app "G" "steam://rungameid/10" ""] ++ [mk_app "G" "steam://rungameid/10" "x.png"])
        = Some (if (_score_app_for_keep current
                    <? _score_app_for_keep (mk_app "G" "steam://rungameid/10" "x.png"))%Z
                then (<[length kept0 := mk_app "G" "steam://rungameid/10" "x.png"]> kept,
                      removed_ ++ [current])
                else (kept, removed_ ++ [mk_app "G" "steam://rungameid/10" "x.png"])))).
Proof.
  split.
  - vm_compute. reflexivity.
  - apply (dedupe_tracked_rule [mk_app "G" "steam://rungameid/10" ""]
             (mk_app "G" "steam://rungameid/10" "x.png") "10").
    vm_compute. reflexivity.
Defined.

(** The score is the sum of two independent signals, 10 for a non-empty
    artwork path and 3 for a non-empty name. *)
Lemma score_additive (a : app) :
  _score_app_for_keep a =
    ((if Py.truthy (a !! "image-path") then 10 else 0)
     + (if Py.truthy (a !! "name") then 3 else 0))%Z.
Proof.
  unfold _score_app_for_keep.
  by destruct (Py.truthy (a !! "image-path")), (Py.truthy (a !! "name")).
Qed.

(** C5. Of two tracked entries with the same identifier of which exactly
    one has a non-empty artwork path, the deduplicator keeps the one with
    the artwork path and removes the other, in both input orders; the
    score is the sum of an artwork signal of weight 10 and a name signal of
    weight 3, so the entry with artwork scores strictly higher whatever the
    names are. *)
Theorem dedupe_prefers_artwork (a b : app) (id : string) :
  dedupe_id a = Some id → dedupe_id b = Some id →
  Py.truthy (a !! "image-path") = true →
  Py.truthy (b !! "image-path") = false →
  dedupe_sunshine_apps [a; b] = Some ([a], [b]) ∧
  dedupe_sunshine_apps [b; a] = Some ([a], [b]) ∧
  (_score_app_for_keep b < _score_app_for_keep a)%Z ∧
  (∀ e : app, _score_app_for_keep e =
     ((if Py.truthy (e !! "image-path") then 10 else 0)
      + (if Py.truthy (e !! "name") then 3 else 0))%Z).
Proof.
  intros Ha Hb Harta Hartb.
  assert (_score_app_for_keep b < _score_app_for_keep a)%Z as Hlt.
  { rewrite !score_additive, Harta, Hartb.
    destruct (Py.truthy (a !! "name")), (Py.truthy (b !! "name")); lia. }
  split_and!; [| |done|apply score_additive].
  - unfold dedupe_sunshine_apps. simpl.
    rewrite (dedupe_step_tracked _ _ _ Ha). simpl. rewrite lookup_empty.
    rewrite (dedupe_step_tracked _ _ _ Hb). simpl. rewrite lookup_insert_eq. simpl.
    rewrite (proj2 (Z.ltb_ge _ _)) by lia. done.
  - unfold dedupe_sunshine_apps. simpl.
    rewrite (dedupe_step_tracked _ _ _ Hb). simpl. rewrite lookup_empty.
    rewrite (dedupe_step_tracked _ _ _ Ha). simpl. rewrite lookup_insert_eq. simpl.
    rewrite (proj2 (Z.ltb_lt _ _)) by lia. done.
Qed.

Lemma dedupe_prefers_artwork_witness :
  dedupe_sunshine_apps
    [mk_app "" "steam://rungameid/10" "x.png"; mk_app "G" "steam://rungameid/10" ""]
  = Some ([mk_app "" "steam://rungameid/10" "x.png"], [mk_app "G" "steam://rungameid/10" ""]) ∧
  dedupe_sunshine_apps
    [mk_app "G" "steam://rungameid/10" ""; mk_app "" "steam://rungameid/10" "x.png"]
  = Some ([mk_app "" "steam://rungameid/10" "x.png"], [mk_app "G" "steam://rungameid/10" ""]).
Proof.
  destruct (dedupe_prefers_artwork
              (mk_app "" "steam://rungameid/10" "x.png")
              (mk_app "G" "steam://rungameid/10" "") "10") as (H1 & H2 & _).
  - vm_compute. reflexivity.
  - vm_compute. reflexivity.
  - vm_compute. reflexivity.
  - vm_compute. reflexivity.
  - exact (conj H1 H2).
Defined.

(** ** The reconciler *)

Lemma reconcile_step_opaque installed st a :
  reconcile_id a = None →
  reconcile_step installed st a =
    ReconcileState (updated_apps st ++ [a]) (removed_games st)
      (existing_steam_apps st) (rc_world st).
Proof. unfold reconcile_id, reconcile_step. by intros ->. Qed.

Lemma reconcile_step_installed installed st a id :
  reconcile_id a = Some id → id ∈ dom installed →
  reconcile_step installed st a =
    ReconcileState (updated_apps st ++ [a]) (removed_games st)
      ({[id]} ∪ existing_steam_apps st) (rc_world st).
Proof.
  unfold reconcile_id, reconcile_step. intros H Hin.
  rewrite H, (truthy_extract _ _ H). simpl. by rewrite bool_decide_eq_true_2.
Qed.

Lemma reconcile_step_uninstalled installed st a id :
  reconcile_id a = Some id → id ∉ dom installed →
  reconcile_step installed st a =
    ReconcileState (updated_apps st)
      (removed_games st ++ [(default "Unknown" (a !! "name"), id)])
      (existing_steam_apps st)
      (if Py.truthy (a !! "image-path")
          && bool_decide (Py.or_empty (a !! "image-path") ∈ files (rc_world st))
       then try_remove (Py.or_empty (a !! "image-path")) (rc_world st)
       else rc_world st).
Proof.
  unfold reconcile_id, reconcile_step. intros H Hin.
  rewrite H, (truthy_extract _ _ H). simpl. by rewrite bool_decide_eq_false_2.
Qed.

Lemma try_remove_spec p w :
  locked (try_remove p w) = locked w ∧
  files (try_remove p w) = files w ∖ ({[p]} ∖ locked w) ∧
  ∃ evs, trace (try_remove p w) = trace w ++ evs ∧
         Forall (λ ev, is_removal ev = true) evs.
Proof.
  unfold try_remove. case_bool_decide; simpl.
  - split; [done|]. split; [set_solver|]. eexists [_]. split; [done|]. by repeat constructor.
  - split; [done|]. split; [set_solver|]. eexists [_]. split; [done|]. by repeat constructor.
Qed.

Lemma reconcile_step_spec installed st a :
  reconcile_extends installed [a] st (reconcile_step installed st a).
Proof.
  unfold reconcile_extends, is_kept, dropped_artwork, dropped_pair, matched_id.
  rewrite filter_cons, filter_nil. simpl.
  destruct (reconcile_id a) as [id|] eqn:Hid.
  - destruct (decide (id ∈ dom installed)) as [Hin|Hnin].
    + rewrite (reconcile_step_installed _ _ _ _ Hid Hin).
      rewrite !bool_decide_eq_true_2 by done. simpl.
      rewrite ?decide_True by done.
      split_and!; [done|by rewrite app_nil_r|set_solver|done|set_solver|].
      exists []. by rewrite app_nil_r.
    + rewrite (reconcile_step_uninstalled _ _ _ _ Hid Hnin).
      rewrite !(bool_decide_eq_false_2 (id ∈ dom installed)) by done. simpl.
      rewrite ?decide_False by done.
      split_and!; [by rewrite app_nil_r|done|set_solver|..].
      * destruct (Py.truthy (a !! "image-path")); simpl; [|done].
        case_bool_decide; [|done]. apply try_remove_spec.
      * destruct (Py.truthy (a !! "image-path")) eqn:Ht; simpl; [|set_solver].
        destruct (a !! "image-path") as [p|]; [|done]. simpl.
        case_bool_decide.
        -- destruct (try_remove_spec p (rc_world st)) as (_ & -> & _). set_solver.
        -- set_solver.
      * destruct (Py.truthy (a !! "image-path")); simpl;
          [|exists []; by rewrite app_nil_r].
        case_bool_decide; [|exists []; by rewrite app_nil_r].
        apply try_remove_spec.
  - rewrite (reconcile_step_opaque _ _ _ Hid). simpl.
    rewrite ?decide_True by done.
    split_and!; [done|by rewrite app_nil_r|set_solver|done|set_solver|].
    exists []. by rewrite app_nil_r.
Qed.

Lemma reconcile_extends_trans installed l1 l2 st1 st2 st3 :
  reconcile_extends installed l1 st1 st2 →
  reconcile_extends installed l2 st2 st3 →
  reconcile_extends installed (l1 ++ l2) st1 st3.
Proof.
  intros (Hu1 & Hr1 & He1 & Hl1 & Hf1 & evs1 & Ht1 & Hev1)
         (Hu2 & Hr2 & He2 & Hl2 & Hf2 & evs2 & Ht2 & Hev2).
  unfold reconcile_extends.
  rewrite filter_app, !omap_app, !list_to_set_app_L.
  rewrite Hu2, Hu1, Hr2, Hr1, He2, He1, Hl2, Hl1, Hf2, Hf1, Hl1, Ht2, Ht1.
  rewrite <-!app_assoc.
  split_and!; [done|done|set_solver|done|set_solver|].
  exists (evs1 ++ evs2). split; [done|]. by apply Forall_app.
Qed.

Lemma reconcile_fold installed apps :
  ∀ st, reconcile_extends installed apps st (foldl (reconcile_step installed) st apps).
Proof.
  induction apps as [|a apps IH]; intros st; simpl.
  - unfold reconcile_extends. rewrite filter_nil. simpl.
    rewrite !app_nil_r.
    split_and!; [done|done|set_solver|done|set_solver|].
    exists []. by rewrite app_nil_r.
  - apply (reconcile_extends_trans installed [a] apps _ _ _
             (reconcile_step_spec installed st a) (IH _)).
Qed.

Lemma process_existing_apps_spec apps installed w :
  reconcile_extends installed apps (ReconcileState [] [] ∅ w)
    (process_existing_apps apps installed w).
Proof. apply reconcile_fold. Qed.

(** C2. The reconciler never raises and disposes of each entry by the
    installed-game map alone: its kept list is the input filtered by
    [is_kept] (opaque entries and tracked entries whose identifier is
    installed), its removed list holds the (name, identifier) pair of every
    tracked entry whose identifier is not installed, in order, with
    ["Unknown"] for an entry without a name field, and its matched set
    holds the installed identifiers met.  On disk only artwork files of
    dropped entries disappear, and only those whose removal does not raise;
    a removal that raises changes none of the three results. *)
Theorem reconcile_rule (apps : list app) (installed : gmap string string) (w : world) :
  let rc := process_existing_apps apps installed w in
  updated_apps rc = filter (λ a, is_kept installed a = true) apps ∧
  removed_games rc = omap (dropped_pair installed) apps ∧
  existing_steam_apps rc = list_to_set (omap (matched_id installed) apps) ∧
  locked (rc_world rc) = locked w ∧
  files (rc_world rc) =
    files w ∖ (list_to_set (omap (dropped_artwork installed) apps) ∖ locked w) ∧
  (∃ evs, trace (rc_world rc) = trace w ++ evs ∧
          Forall (λ ev, is_removal ev = true) evs) ∧
  (∀ a, a ∈ apps →
     (reconcile_id a = None → a ∈ updated_apps rc) ∧
     (∀ id, reconcile_id a = Some id → id ∈ dom installed →
            a ∈ updated_apps rc ∧ id ∈ existing_steam_apps rc) ∧
     (∀ id, reconcile_id a = Some id → id ∉ dom installed →
            (a ∉ updated_apps rc) ∧
            (default "Unknown" (a !! "name"), id) ∈ removed_games rc)).
Proof.
  intros rc.
  destruct (process_existing_apps_spec apps installed w)
    as (Hu & Hr & He & Hl & Hf & Hev).
  fold rc in Hu, Hr, He, Hl, Hf, Hev. simpl in *.
  rewrite union_empty_l_L in He. rewrite Hu, Hr, He.
  split_and!; [done..|].
  intros a Ha. split_and!.
  - intros Hid. apply list_elem_of_filter. split; [|done].
    unfold is_kept. by rewrite Hid.
  - intros id Hid Hin. split.
    + apply list_elem_of_filter. split; [|done].
      unfold is_kept. rewrite Hid. by apply bool_decide_eq_true_2.
    + apply elem_of_list_to_set, list_elem_of_omap. exists a. split; [done|].
      unfold matched_id. rewrite Hid. by rewrite bool_decide_eq_true_2.
  - intros id Hid Hnin. split.
    + rewrite list_elem_of_filter. intros [Hk _].
      unfold is_kept in Hk. rewrite Hid in Hk.
      by apply bool_decide_eq_true_1 in Hk.
    + apply list_elem_of_omap. exists a. split; [done|].
      unfold dropped_pair. rewrite Hid. by rewrite bool_decide_eq_false_2.
Qed.

(** Entries the reconciler keeps go through a further pass untouched. *)
Lemma reconcile_fold_kept installed l :
  Forall (λ a, is_kept installed a = true) l →
  ∀ st,
    updated_apps (foldl (reconcile_step installed) st l) = updated_apps st ++ l ∧
    removed_games (foldl (reconcile_step installed) st l) = removed_games st ∧
    existing_steam_apps (foldl (reconcile_step installed) st l) =
      existing_steam_apps st ∪ list_to_set (omap (matched_id installed) l) ∧
    rc_world (foldl (reconcile_step installed) st l) = rc_world st.
Proof.
  induction 1 as [|a l Ha Hl IH]; intros st; simpl.
  - rewrite app_nil_r. split_and!; [done|done|set_solver|done].
  - destruct (IH (reconcile_step installed st a)) as (-> & -> & -> & ->).
    unfold is_kept in Ha. unfold matched_id.
    destruct (reconcile_id a) as [id|] eqn:Hid.
    + apply bool_decide_eq_true_1 in Ha.
      rewrite (reconcile_step_installed _ _ _ _ Hid Ha). simpl.
      rewrite bool_decide_eq_true_2 by done. simpl.
      rewrite <-app_assoc. split_and!; [done|done|set_solver|done].
    + rewrite (reconcile_step_opaque _ _ _ Hid). simpl.
      rewrite <-app_assoc. split_and!; [done|done|set_solver|done].
Qed.

Lemma matched_id_kept installed (apps : list app) :
  omap (matched_id installed) (filter (λ a, is_kept installed a = true) apps)
  = omap (matched_id installed) apps.
Proof.
  induction apps as [|a apps IH]; [done|].
  rewrite filter_cons. destruct (decide (is_kept installed a = true)) as [Hk|Hk]; csimpl.
  - by rewrite IH.
  - rewrite IH. unfold is_kept, matched_id in *.
    destruct (reconcile_id a); [|done].
    by destruct (bool_decide _).
Qed.

(** C6. Reconciliation is idempotent: reconciling the kept list of a
    first pass against the same installed-game map, in whatever state the
    disk then is, removes no game, returns the kept list unchanged and the
    same matched set, and leaves the disk and the trace as they were. *)
Theorem reconcile_idempotent (apps : list app) (installed : gmap string string)
    (w w' : world) :
  let rc := process_existing_apps apps installed w in
  let rc2 := process_existing_apps (updated_apps rc) installed w' in
  removed_games rc2 = [] ∧
  updated_apps rc2 = updated_apps rc ∧
  existing_steam_apps rc2 = existing_steam_apps rc ∧
  rc_world rc2 = w'.
Proof.
  intros rc rc2.
  destruct (process_existing_apps_spec apps installed w) as (Hu & _ & He & _).
  fold rc in Hu, He. simpl in Hu, He.
  assert (Forall (λ a, is_kept installed a = true) (updated_apps rc)) as Hall.
  { rewrite Hu. apply Forall_forall. by intros a [? _]%list_elem_of_filter. }
  destruct (reconcile_fold_kept installed _ Hall (ReconcileState [] [] ∅ w'))
    as (Hu2 & Hr2 & He2 & Hw2).
  fold (process_existing_apps (updated_apps rc) installed w') in Hu2, Hr2, He2, Hw2.
  fold rc2 in Hu2, Hr2, He2, Hw2. simpl in *.
  split_and!; [done|done| |done].
  rewrite He2, He, Hu, matched_id_kept. set_solver.
Qed.

(** ** The orchestrator *)

Lemma main_plan_inr a e w p :
  main_plan a e w = inr p →
  ∃ stored w0 w1,
    env_config e = Some (pl_config p) ∧
    w0 = (if no_restart a then w
          else restart_steam (env_platform e) (STEAM_EXE_PATH (pl_config p)) w) ∧
    load_installed_games (env_library e) (env_name_net e) = Some (pl_installed p) ∧
    env_stored e = Some stored ∧
    dedupe_sunshine_apps stored = Some (pl_sunshine_apps p, pl_removed_dupes p) ∧
    makedirs (env_makedirs_ok e) (SUNSHINE_GRIDS_FOLDER (pl_config p)) w0 = Some w1 ∧
    pl_reconciled p = process_existing_apps (pl_sunshine_apps p) (pl_installed p) w1 ∧
    pl_new_games p = dom (pl_installed p) ∖ existing_steam_apps (pl_reconciled p).
Proof.
  unfold main_plan. intros H.
  destruct (env_config e) as [config|]; [|done].
  destruct (load_installed_games _ _) as [installed|]; [|done].
  destruct (env_stored e) as [stored|]; [|done].
  destruct (dedupe_sunshine_apps stored) as [[kept dupes]|] eqn:Hdd; [|done].
  destruct (makedirs _ _ _) as [w1|] eqn:Hmk; [|done].
  injection H as <-. simpl. eexists stored, _, w1. split_and!; done.
Qed.

Lemma plan_property (P : plan → Prop) `{!∀ p, Decision (P p)} (r : world + plan) p :
  r = inr p →
  match r with inr q => bool_decide (P q) | inl _ => false end = true →
  P p.
Proof. intros ->. apply bool_decide_eq_true_1. Qed.

Lemma matched_ids_spec installed (l : list app) :
  list_to_set (omap (matched_id installed) l) =@{gset string}
  tracked_ids l ∩ dom installed.
Proof.
  apply set_eq. intros id. unfold tracked_ids.
  rewrite elem_of_intersection, !elem_of_list_to_set, !list_elem_of_omap.
  unfold matched_id. split.
  - intros (a & Ha & Hm). destruct (reconcile_id a) as [id'|] eqn:Hid; [|done].
    case_bool_decide; [|done]. injection Hm as <-. eauto.
  - intros [(a & Ha & Hid) Hin]. exists a. split; [done|].
    rewrite Hid. by rewrite bool_decide_eq_true_2.
Qed.

(** C3. Whenever [main] gets as far as the diff, the add-set it computes
    is the set difference of the installed-game map's keys and the matched
    set returned by the reconciler; an identifier is in it exactly when it
    is installed and no entry handed to the reconciler is tracked under it;
    and for installed keys {A, B, C} with C distinct from A and B and
    existing tracked identifiers {A, B} it is exactly {C}. *)
Theorem add_set_is_difference (a : args) (e : environment) (w : world) (p : plan) :
  main_plan a e w = inr p →
  (∃ w1, pl_reconciled p =
           process_existing_apps (pl_sunshine_apps p) (pl_installed p) w1) ∧
  pl_new_games p = dom (pl_installed p) ∖ existing_steam_apps (pl_reconciled p) ∧
  (∀ id, id ∈ pl_new_games p ↔
           id ∈ dom (pl_installed p) ∧ id ∉ tracked_ids (pl_sunshine_apps p)) ∧
  (∀ A B C : string,
     C ≠ A → C ≠ B →
     dom (pl_installed p) = {[A; B; C]} →
     tracked_ids (pl_sunshine_apps p) = {[A; B]} →
     pl_new_games p = {[C]}).
Proof.
  intros (stored & w0 & w1 & _ & _ & _ & _ & _ & _ & Hrc & Hnew)%main_plan_inr.
  assert (existing_steam_apps (pl_reconciled p)
          = tracked_ids (pl_sunshine_apps p) ∩ dom (pl_installed p)) as Hex.
  { rewrite Hrc.
    destruct (process_existing_apps_spec (pl_sunshine_apps p) (pl_installed p) w1)
      as (_ & _ & He & _).
    simpl in He. rewrite He, matched_ids_spec. set_solver. }
  split_and!; [by exists w1|done|..].
  - intros id. rewrite Hnew, Hex. set_solver.
  - intros A B C HA HB Hdom Htr. rewrite Hnew, Hex, Hdom, Htr. set_solver.
Qed.

Lemma add_set_is_difference_witness :
  ∃ p, main_plan dry_args abc_env stale_world = inr p ∧ pl_new_games p = {["3"]}.
Proof.
  destruct (main_plan dry_args abc_env stale_world) as [w|p] eqn:E.
  - exfalso.
    assert (match main_plan dry_args abc_env stale_world with
            | inr _ => True | inl _ => False end) as H by (vm_compute; exact I).
    by rewrite E in H.
  - exists p. split; [done|].
    destruct (add_set_is_difference _ _ _ _ E) as (_ & _ & _ & Habc).
    apply (Habc "1" "2" "3"); [done|done|..].
    + apply (plan_property (λ q, dom (pl_installed q) = {["1"; "2"; "3"]}) _ _ E).
      vm_compute. reflexivity.
    + apply (plan_property (λ q, tracked_ids (pl_sunshine_apps q) = {["1"; "2"]}) _ _ E).
      vm_compute. reflexivity.
Defined.

Lemma restart_steam_trace pf exe w :
  ∃ evs, trace (restart_steam pf exe w) = trace w ++ evs ∧
         Forall (λ ev, is_startup_event ev = true ∧ is_write_or_restart ev = false) evs.
Proof.
  unfold restart_steam.
  destruct (negb _); [exists []; by rewrite app_nil_r|].
  destruct (_ || _); [exists []; by rewrite app_nil_r|].
  eexists [_]. split; [done|]. by repeat constructor.
Qed.

Lemma makedirs_trace ok path w w' :
  makedirs ok path w = Some w' →
  ∃ evs, trace w' = trace w ++ evs ∧
         Forall (λ ev, is_startup_event ev = true ∧ is_write_or_restart ev = false) evs.
Proof.
  unfold makedirs. destruct (negb ok); [done|].
  case_bool_decide; intros [= <-].
  - exists []. by rewrite app_nil_r.
  - eexists [_]. split; [done|]. by repeat constructor.
Qed.

Lemma omap_nil_Forall {A B} (f : A → option B) (l : list A) :
  omap f l = [] → Forall (λ a, f a = None) l.
Proof.
  induction l as [|a l IH]; csimpl; [by constructor|].
  destruct (f a) eqn:Hf; [done|]. intros H. constructor; auto.
Qed.

(** A pass that removes no game leaves the disk and the trace alone. *)
Lemma reconcile_nothing_removed (apps : list app) installed w :
  removed_games (process_existing_apps apps installed w) = [] →
  rc_world (process_existing_apps apps installed w) = w.
Proof.
  intros Hr.
  destruct (process_existing_apps_spec apps installed w) as (_ & Hr' & _).
  rewrite Hr in Hr'. simpl in Hr'. symmetry in Hr'.
  apply omap_nil_Forall in Hr'.
  assert (Forall (λ a, is_kept installed a = true) apps) as Hall.
  { eapply Forall_impl; [exact Hr'|]. intros a. unfold dropped_pair, is_kept.
    destruct (reconcile_id a); [|done]. by case_bool_decide. }
  by destruct (reconcile_fold_kept installed apps Hall (ReconcileState [] [] ∅ w))
    as (_ & _ & _ & ?).
Qed.

(** C7. When the first dedupe removed nothing, the reconciler removed no
    game and the add-set is empty, [changes_needed] is false and [main]
    returns "up to date" at once: the add phase, the final dedupe, the
    save and the restart of the target launcher are not reached.  All the
    run did is what precedes the reconciler (the optional restart of the
    source launcher, the creation of the grids folder): no backup, no
    write of the entry list, no restart of the target launcher, no file
    removed. *)
Theorem no_changes_short_circuit (a : args) (e : environment) (w : world) (p : plan) :
  main_plan a e w = inr p →
  pl_removed_dupes p = [] →
  removed_games (pl_reconciled p) = [] →
  pl_new_games p = ∅ →
  changes_needed p = false ∧
  main a e w = (UpToDate, rc_world (pl_reconciled p)) ∧
  files (snd (main a e w)) ⊆ files w ∪ {[SUNSHINE_GRIDS_FOLDER (pl_config p)]} ∧
  files w ⊆ files (snd (main a e w)) ∧
  ∃ evs, trace (snd (main a e w)) = trace w ++ evs ∧
         Forall (λ ev, is_startup_event ev = true ∧ is_write_or_restart ev = false) evs.
Proof.
  intros Hplan Hd Hr Hn.
  assert (changes_needed p = false) as Hc.
  { unfold changes_needed. rewrite Hd, Hr, Hn.
    by rewrite !bool_decide_eq_true_2. }
  assert (main a e w = (UpToDate, rc_world (pl_reconciled p))) as Hmain.
  { unfold main. rewrite Hplan, Hc. done. }
  split; [done|]. split; [done|]. rewrite Hmain. simpl.
  apply main_plan_inr in Hplan
    as (stored & w0 & w1 & _ & Hw0 & _ & _ & _ & Hmk & Hrc & _).
  rewrite Hrc in Hr |- *. rewrite (reconcile_nothing_removed _ _ _ Hr).
  destruct (makedirs_trace _ _ _ _ Hmk) as (evs1 & Ht1 & Hev1).
  assert (∃ evs0, trace w0 = trace w ++ evs0 ∧
            Forall (λ ev, is_startup_event ev = true ∧ is_write_or_restart ev = false) evs0)
    as (evs0 & Ht0 & Hev0).
  { rewrite Hw0. destruct (no_restart a); [exists []; by rewrite app_nil_r|].
    apply restart_steam_trace. }
  assert (files w0 = files w) as Hf0.
  { rewrite Hw0. destruct (no_restart a); [done|].
    unfold restart_steam. by repeat case_match. }
  assert (files w1 = files w0 ∨ files w1 = {[SUNSHINE_GRIDS_FOLDER (pl_config p)]} ∪ files w0)
    as Hf1.
  { unfold makedirs in Hmk. destruct (negb _); [done|].
    case_bool_decide; injection Hmk as <-; auto. }
  split_and!.
  - destruct Hf1 as [-> | ->]; set_solver.
  - destruct Hf1 as [-> | ->]; set_solver.
  - exists (evs0 ++ evs1). rewrite Ht1, Ht0, <-app_assoc.
    split; [done|]. by apply Forall_app.
Qed.

Lemma no_changes_short_circuit_witness :
  main (Args false true false) same_env stale_world = (UpToDate, stale_world).
Proof.
  destruct (main_plan (Args false true false) same_env stale_world) as [w|p] eqn:E.
  - exfalso.
    assert (match main_plan (Args false true false) same_env stale_world with
            | inr _ => True | inl _ => False end) as H by (vm_compute; exact I).
    by rewrite E in H.
  - destruct (no_changes_short_circuit _ _ _ _ E) as (_ & -> & _).
    + apply (plan_property (λ q, pl_removed_dupes q = []) _ _ E).
      vm_compute. reflexivity.
    + apply (plan_property (λ q, removed_games (pl_reconciled q) = []) _ _ E).
      vm_compute. reflexivity.
    + apply (plan_property (λ q, pl_new_games q = ∅) _ _ E).
      vm_compute. reflexivity.
    + f_equal.
      apply (plan_property (λ q, rc_world (pl_reconciled q) = stale_world) _ _ E).
      vm_compute. reflexivity.
Defined.

(** C8. A dry run is not free of effects.  With [--dry-run] (and
    [--no-restart]) over a config that lists the uninstalled game 300,
    whose artwork file exists, [main] ends on the dry-run branch, yet the
    reconciler has already removed the artwork file from the disk. *)
Theorem dry_run_removes_artwork :
  dry_run dry_args = true ∧
  fst (main dry_args stale_env stale_world) = DryRun ∧
  "grids/300.png" ∈ files stale_world ∧
  ("grids/300.png" ∉ files (snd (main dry_args stale_env stale_world))) ∧
  trace (snd (main dry_args stale_env stale_world)) = [EvRemove "grids/300.png"].
Proof. split_and!; decide_by_vm. Qed.

(** Without [--no-restart] a dry run on Windows also restarts the source
    launcher before it looks at anything. *)
Lemma dry_run_restarts_steam :
  fst (main dry_restart_args stale_nt_env stale_nt_world) = DryRun ∧
  trace (snd (main dry_restart_args stale_nt_env stale_nt_world))
  = [EvRestartSteam "steam.exe"; EvRemove "grids/300.png"].
Proof. split; decide_by_vm. Qed.

(** ** The retry loops *)

Lemma attempts_three body :
  attempts_loop body (seq 0 3) 0 [] =
    match body 0 with
    | Return r => FetchRun r 1 []
    | Again =>
        match body 1 with
        | Return r => FetchRun r 2 [1]
        | Again =>
            match body 2 with
            | Return r => FetchRun r 3 [1; 2]
            | Again => FetchRun None 3 [1; 2]
            end
        end
    end.
Proof. simpl. by destruct (body 0), (body 1), (body 2). Qed.

Lemma attempts_exhausted body :
  (∀ n, n < 3 → body n = Again) →
  attempts_loop body (seq 0 3) 0 [] = FetchRun None 3 [1; 2].
Proof.
  intros H. rewrite attempts_three.
  by rewrite (H 0), (H 1), (H 2) by lia.
Qed.

Lemma attempts_stop body k r :
  k < 3 → (∀ n, n < k → body n = Again) → body k = Return r →
  attempts_loop body (seq 0 3) 0 [] = FetchRun r (S k) (take k [1; 2]).
Proof.
  intros Hk Hbefore Hr. rewrite attempts_three.
  destruct k as [|[|[|k]]]; [| | |lia].
  - by rewrite Hr.
  - by rewrite (Hbefore 0), Hr by lia.
  - by rewrite (Hbefore 0), (Hbefore 1), Hr by lia.
Qed.

Lemma handle_retryable f : retryable f = true → handle (raised f) = Again.
Proof. unfold retryable. by destruct (raised f). Qed.

(** A body that is not JSON is retried like a network error: three
    requests and both backoff sleeps, in the name lookup and in the artwork
    fetch alike. *)
Lemma bad_json_is_retried :
  get_game_name (λ _, Fails FBadJSON) "10" = FetchRun None 3 [1; 2] ∧
  fr_requests (get_game_name (λ _, Fails FBadJSON) "10") ≠ 1 ∧
  fetch_grid_from_steamgriddb (λ _, Fails FBadJSON) "grids/10.png"
  = FetchRun None 3 [1; 2] ∧
  fr_requests (fetch_grid_from_steamgriddb (λ _, Fails FBadJSON) "grids/10.png") ≠ 1.
Proof. split_and!; decide_by_vm. Qed.

(** C9, as the code has it.  A failure is retried exactly when the HTTP
    client reports it as a request exception: a timeout, a connection
    failure, an error status, or a body that is not JSON.  When all three
    attempts of a name lookup or of an artwork fetch fail that way, three
    requests are made, the loop sleeps 1 s and then 2 s, and the result is
    absent.  When, after [k] such failures, attempt [k] meets a response of
    an unexpected shape, no data (no entry for the game, an entry without
    success or without a name; an empty artwork listing) or invalid image
    bytes, the result is absent at once: [k + 1] requests in all and no
    sleep after the last. *)
Theorem retry_policy :
  (∀ f, retryable f = true ↔ f ∈ [FTimeout; FConnection; FHTTPStatus; FBadJSON]) ∧
  (∀ (net : nat → attempt (gmap string appdetails)) app_id,
     (∀ n, n < 3 → ∃ f, net n = Fails f ∧ retryable f = true) →
     get_game_name net app_id = FetchRun None 3 [1; 2]) ∧
  (∀ (net : nat → grid_exchange) grid_path,
     (∀ n, n < 3 → ∃ f, retryable f = true ∧
        (net n = Fails f ∨ ∃ u us, net n = Responds (u :: us, Fails f))) →
     fetch_grid_from_steamgriddb net grid_path = FetchRun None 3 [1; 2]) ∧
  (∀ (net : nat → attempt (gmap string appdetails)) app_id k,
     k < 3 →
     (∀ n, n < k → ∃ f, net n = Fails f ∧ retryable f = true) →
     (net k = Fails FMalformed
      ∨ (∃ data, net k = Responds data ∧ data !! app_id = None)
      ∨ (∃ data d, net k = Responds data ∧ data !! app_id = Some d ∧
                   ad_success d && Py.truthy (ad_name d) = false)) →
     get_game_name net app_id = FetchRun None (S k) (take k [1; 2])) ∧
  (∀ (net : nat → grid_exchange) grid_path k,
     k < 3 →
     (∀ n, n < k → ∃ f, retryable f = true ∧
        (net n = Fails f ∨ ∃ u us, net n = Responds (u :: us, Fails f))) →
     (net k = Fails FMalformed
      ∨ (∃ download, net k = Responds ([], download))
      ∨ (∃ urls, net k = Responds (urls, Fails FMalformed))
      ∨ (∃ urls, net k = Responds (urls, Responds ImgInvalid))) →
     fetch_grid_from_steamgriddb net grid_path = FetchRun None (S k) (take k [1; 2])).
Proof.
  assert (∀ (net : nat → attempt (gmap string appdetails)) app_id n,
            (∃ f, net n = Fails f ∧ retryable f = true) →
            name_body net app_id n = Again) as Hname.
  { intros net app_id n (f & Hn & Hf). unfold name_body. rewrite Hn.
    by apply handle_retryable. }
  assert (∀ (net : nat → grid_exchange) grid_path n,
            (∃ f, retryable f = true ∧
               (net n = Fails f ∨ ∃ u us, net n = Responds (u :: us, Fails f))) →
            grid_body net grid_path n = Again) as Hgrid.
  { intros net grid_path n (f & Hf & [Hn|(u & us & Hn)]);
      unfold grid_body; rewrite Hn; by apply handle_retryable. }
  split_and!.
  - intros f. rewrite !elem_of_cons, elem_of_nil. destruct f; naive_solver.
  - intros net app_id H. apply attempts_exhausted. auto.
  - intros net grid_path H. apply attempts_exhausted. auto.
  - intros net app_id k Hk Hbefore Hlast. apply attempts_stop; [done|auto|].
    unfold name_body.
    destruct Hlast as [->|[(data & -> & ->)|(data & d & -> & -> & ->)]]; done.
  - intros net grid_path k Hk Hbefore Hlast. apply attempts_stop; [done|auto|].
    unfold grid_body.
    destruct Hlast as [->|[[d ->]|[[urls ->]|[urls ->]]]]; [done|done|..];
      by destruct urls.
Qed.

Lemma retry_policy_witness :
  get_game_name (λ n, match n with
                      | 0 => Fails FTimeout
                      | 1 => Fails FConnection
                      | _ => Fails FTimeout
                      end) "10" = FetchRun None 3 [1; 2] ∧
  fetch_grid_from_steamgriddb
    (λ n, match n with
          | 0 => Fails FTimeout
          | _ => Responds (["http://img"], Responds ImgInvalid)
          end) "grids/10.png" = FetchRun None 2 [1] ∧
  get_game_name (λ _, Responds {[ "10" := AppDetails false (Some "Ten") ]}) "10"
  = FetchRun None 1 [].
Proof.
  destruct retry_policy as (_ & Hname & _ & Hstop & Hgrid).
  split_and!.
  - apply Hname. intros [|[|[|n]]] Hn; [| | |lia].
    + exists FTimeout. split; reflexivity.
    + exists FConnection. split; reflexivity.
    + exists FTimeout. split; reflexivity.
  - apply (Hgrid _ _ 1).
    + lia.
    + intros [|n] Hn; [|lia]. exists FTimeout. split; [reflexivity|]. by left.
    + right. right. right. by exists ["http://img"].
  - apply (Hstop _ _ 0); [lia|intros n Hn; lia|].
    right. right.
    exists {[ "10" := AppDetails false (Some "Ten") ]}, (AppDetails false (Some "Ten")).
    split_and!; [reflexivity|by rewrite lookup_singleton_eq|reflexivity].
Defined.

(** ** Build and extract *)

Lemma match_literal_ci_app pat s : match_literal_ci pat (pat +:+ s) = Some s.
Proof.
  induction pat as [|p pat IH]; simpl; [done|].
  by rewrite bool_decide_eq_true_2.
Qed.

Lemma take_digits_decimal s : all_decimal s = true → take_digits s = s.
Proof.
  induction s as [|c s IH]; simpl; [done|].
  intros [Hc Hs]%andb_true_iff. rewrite Hc. by rewrite IH.
Qed.

Lemma match_at_marker id :
  isdecimal id = true → match_at (RUNGAME_MARKER +:+ id) = Some id.
Proof.
  intros Hid. unfold match_at. rewrite match_literal_ci_app.
  destruct id as [|c id]; [done|].
  rewrite take_digits_decimal by done. done.
Qed.

Lemma re_search_hit s d : match_at s = Some d → re_search s = Some d.
Proof. intros H. destruct s; [done|]. simpl. by rewrite H. Qed.

Lemma re_search_skip c s :
  match_at (String c s) = None → re_search (String c s) = re_search s.
Proof. intros H. simpl. by rewrite H. Qed.

Lemma re_search_marker id :
  isdecimal id = true → re_search (RUNGAME_MARKER +:+ id) = Some id.
Proof. intros H. by apply re_search_hit, match_at_marker. Qed.

Lemma decimal_not_space c : Py.isdecimal c = true → Py.isspace c = false.
Proof. destruct c as [[] [] [] [] [] [] [] []]; vm_compute; congruence. Qed.

Lemma rstrip_decimal s : all_decimal s = true → Py.rstrip s = s.
Proof.
  induction s as [|c s IH]; simpl; [done|].
  intros [Hc Hs]%andb_true_iff. rewrite IH by done.
  destruct s; [|done]. by rewrite decimal_not_space.
Qed.

Lemma rstrip_app prefix s :
  Py.rstrip s = s → s ≠ "" → Py.rstrip (prefix +:+ s) = prefix +:+ s.
Proof.
  intros Hs Hne. induction prefix as [|c prefix IH]; [done|].
  change (String c prefix +:+ s) with (String c (prefix +:+ s)).
  simpl. rewrite IH. destruct (prefix +:+ s) eqn:E; [|done].
  destruct prefix; simpl in E; [done|discriminate].
Qed.

Lemma rstrip_cmd prefix id :
  isdecimal id = true → Py.rstrip (prefix +:+ id) = prefix +:+ id.
Proof.
  intros Hid. destruct id as [|c id]; [done|].
  apply rstrip_app; [|done]. by apply rstrip_decimal.
Qed.

Ltac skip_prefix :=
  repeat (rewrite re_search_skip by (vm_compute; reflexivity)).

Lemma extract_bare id :
  isdecimal id = true →
  extract_steam_app_id ("steam://rungameid/" +:+ id) = Some id.
Proof. intros H. simpl. by apply re_search_marker. Qed.

Lemma extract_plain id :
  isdecimal id = true →
  extract_steam_app_id ("steam steam://rungameid/" +:+ id) = Some id.
Proof.
  intros H. cbn [extract_steam_app_id String.append]. skip_prefix.
  by apply re_search_marker.
Qed.

Lemma extract_flatpak id :
  isdecimal id = true →
  extract_steam_app_id
    ("flatpak run com.valvesoftware.Steam steam://rungameid/" +:+ id) = Some id.
Proof.
  intros H. cbn [extract_steam_app_id String.append]. skip_prefix.
  by apply re_search_marker.
Qed.

Lemma build_cmd_cases pf id :
  build_cmd pf id = "steam://rungameid/" +:+ id
  ∨ build_cmd pf id = "flatpak run com.valvesoftware.Steam steam://rungameid/" +:+ id
  ∨ build_cmd pf id = "steam steam://rungameid/" +:+ id.
Proof. unfold build_cmd. repeat case_match; auto. Qed.

Lemma strip_build_cmd pf id :
  isdecimal id = true → Py.strip (build_cmd pf id) = build_cmd pf id.
Proof.
  intros H. unfold Py.strip.
  destruct (build_cmd_cases pf id) as [-> | [-> | ->]];
    (etrans; [|by apply rstrip_cmd]); f_equal.
Qed.

Lemma new_app_cmd name cmd grid : new_app name cmd grid !! "cmd" = Some cmd.
Proof. unfold new_app. by simplify_map_eq. Qed.

Lemma new_app_name name cmd grid : new_app name cmd grid !! "name" = Some name.
Proof. unfold new_app. by simplify_map_eq. Qed.

Lemma new_app_tracked pf id name grid :
  isdecimal id = true →
  reconcile_id (new_app name (build_cmd pf id) grid) = Some id ∧
  dedupe_id (new_app name (build_cmd pf id) grid) = Some id.
Proof.
  intros H. unfold reconcile_id, dedupe_id. rewrite new_app_cmd. simpl.
  rewrite (strip_build_cmd _ _ H).
  assert (extract_steam_app_id (build_cmd pf id) = Some id) as Hx; [|done].
  destruct (build_cmd_cases pf id) as [-> | [-> | ->]];
    auto using extract_bare, extract_flatpak, extract_plain.
Qed.

Lemma add_step_built pf installed net folder (order : list string) acc id :
  isdecimal id = true → id ∈ order →
  Forall (built_for order installed) acc.1 →
  Forall (built_for order installed) (add_step pf installed net folder acc id).1.
Proof.
  intros Hid Hin Hacc. destruct acc as [new_apps w]. unfold add_step.
  destruct (installed !! id) as [name|] eqn:Hname; simpl; [|done].
  destruct (build_cmd_raises pf id); simpl; [done|].
  apply Forall_app. split; [done|]. apply Forall_singleton.
  destruct (new_app_tracked pf id name
              (fr_result (fetch_grid_from_steamgriddb (net id)
                            (grid_target pf folder id))) Hid) as [Hr Hd].
  exists id, name. split_and!; [done|done|apply new_app_name|done|done].
Qed.

Lemma add_fold_built pf installed net folder (order : list string) :
  ∀ (todo : list string) acc,
    Forall (λ id, isdecimal id = true ∧ id ∈ order) todo →
    Forall (built_for order installed) acc.1 →
    Forall (built_for order installed)
      (foldl (add_step pf installed net folder) acc todo).1.
Proof.
  induction todo as [|id todo IH]; intros acc Htodo Hacc; simpl; [done|].
  apply Forall_cons in Htodo as [[Hid Hin] Htodo].
  apply IH; [done|]. by apply add_step_built.
Qed.

(** C10. For an identifier made of decimal digits only (and not empty),
    the extractor applied to the launch command built for it returns that
    identifier, whichever of the three forms the command builder chooses:
    the bare URI on Windows, the Flatpak invocation, the plain steam
    invocation.  Hence every entry the add phase creates is tracked, for
    the reconciler and for the deduplicator alike, under the identifier it
    was built for, and carries that game's installed name. *)
Theorem build_extract_roundtrip (pf : platform) :
  (∀ app_id, isdecimal app_id = true →
     (build_cmd pf app_id = "steam://rungameid/" +:+ app_id
      ∨ build_cmd pf app_id
        = "flatpak run com.valvesoftware.Steam steam://rungameid/" +:+ app_id
      ∨ build_cmd pf app_id = "steam steam://rungameid/" +:+ app_id) ∧
     extract_steam_app_id ("steam://rungameid/" +:+ app_id) = Some app_id ∧
     extract_steam_app_id
       ("flatpak run com.valvesoftware.Steam steam://rungameid/" +:+ app_id)
     = Some app_id ∧
     extract_steam_app_id ("steam steam://rungameid/" +:+ app_id) = Some app_id ∧
     extract_steam_app_id (build_cmd pf app_id) = Some app_id) ∧
  (∀ new_games order installed net folder w,
     Forall (λ id, isdecimal id = true) order →
     Forall (built_for order installed)
       (add_new_games pf new_games order installed net folder w).1).
Proof.
  split.
  - intros app_id H.
    split; [apply build_cmd_cases|].
    split; [by apply extract_bare|].
    split; [by apply extract_flatpak|].
    split; [by apply extract_plain|].
    destruct (build_cmd_cases pf app_id) as [-> | [-> | ->]];
      auto using extract_bare, extract_flatpak, extract_plain.
  - intros new_games order installed net folder w Hall. unfold add_new_games.
    case_bool_decide; [by constructor|].
    apply add_fold_built; [|by constructor].
    apply Forall_forall. intros id Hin. split; [|done].
    rewrite Forall_forall in Hall. auto.
Qed.

Lemma build_extract_roundtrip_witness :
  extract_steam_app_id (build_cmd nt_platform "730") = Some "730" ∧
  extract_steam_app_id
    (build_cmd (posix_platform (Some "com.valvesoftware.Steam")) "730") = Some "730" ∧
  extract_steam_app_id (build_cmd (posix_platform None) "730") = Some "730".
Proof.
  split_and!.
  - apply (build_extract_roundtrip nt_platform). reflexivity.
  - apply (build_extract_roundtrip (posix_platform (Some "com.valvesoftware.Steam"))).
    reflexivity.
  - apply (build_extract_roundtrip (posix_platform None)). reflexivity.
Defined.

(** ** Scenarios *)

Lemma reconcile_rule_witness :
  removed_games
    (process_existing_apps
       [mk_app "Old" "steam://rungameid/300" "grids/300.png"; mk_app "Foo" "foo.sh" ""]
       ∅ (World {["grids/300.png"]} {["grids/300.png"]} []))
  = [("Old", "300")] ∧
  mk_app "Foo" "foo.sh" ""
  ∈ updated_apps
      (process_existing_apps
         [mk_app "Old" "steam://rungameid/300" "grids/300.png"; mk_app "Foo" "foo.sh" ""]
         ∅ (World {["grids/300.png"]} {["grids/300.png"]} [])).
Proof.
  destruct (reconcile_rule
              [mk_app "Old" "steam://rungameid/300" "grids/300.png"; mk_app "Foo" "foo.sh" ""]
              ∅ (World {["grids/300.png"]} {["grids/300.png"]} []))
    as (_ & Hr & _ & _ & _ & _ & Hall).
  split.
  - rewrite Hr. vm_compute. reflexivity.
  - apply (Hall (mk_app "Foo" "foo.sh" "")).
    + apply list_elem_of_further, list_elem_of_here.
    + vm_compute. reflexivity.
Defined.

(** Scenario 1 of the specification. *)
Example scenario_dedupe :
  dedupe_sunshine_apps
    [ mk_app "G" "steam://rungameid/10" "";
      mk_app "G" "steam://rungameid/10" "x.png";
      mk_app "Foo" "foo.sh" "" ]
  = Some ([ mk_app "G" "steam://rungameid/10" "x.png"; mk_app "Foo" "foo.sh" "" ],
          [ mk_app "G" "steam://rungameid/10" "" ]).
Proof. decide_by_vm. Qed.

(** The identifier is found anywhere in the command, whatever the case of
    the marker, and only its leading digits count. *)
Example extract_examples :
  extract_steam_app_id "steam://rungameid/10" = Some "10" ∧
  extract_steam_app_id "  STEAM://RunGameId/730x9 " = Some "730" ∧
  extract_steam_app_id "steam://rungameid/" = None ∧
  extract_steam_app_id "foo.sh" = None ∧
  extract_steam_app_id "" = None.
Proof. split_and!; decide_by_vm. Qed.

(** Scenario 2: one of two installed games has an entry. *)
Example scenario_add_set :
  let installed : gmap string string := {[ "100" := "Game100"; "200" := "Game200" ]} in
  let rc := process_existing_apps [mk_app "Game100" "steam://rungameid/100" ""]
              installed (World ∅ ∅ []) in
  updated_apps rc = [mk_app "Game100" "steam://rungameid/100" ""] ∧
  removed_games rc = [] ∧
  dom installed ∖ existing_steam_apps rc = {["200"]}.
Proof. split_and!; decide_by_vm. Qed.

(** Scenario 3: an entry for a game that is no longer installed is
    dropped and its artwork file removed; when the removal raises, the
    entry is dropped all the same and the file stays. *)
Example scenario_uninstalled :
  let stale := mk_app "Old" "steam://rungameid/300" "grids/300.png" in
  let rc := process_existing_apps [stale] ∅ (World {["grids/300.png"]} ∅ []) in
  let rc' := process_existing_apps [stale] ∅
               (World {["grids/300.png"]} {["grids/300.png"]} []) in
  updated_apps rc = [] ∧ removed_games rc = [("Old", "300")] ∧
  files (rc_world rc) = ∅ ∧ trace (rc_world rc) = [EvRemove "grids/300.png"] ∧
  updated_apps rc' = [] ∧ removed_games rc' = [("Old", "300")] ∧
  files (rc_world rc') = {["grids/300.png"]} ∧
  trace (rc_world rc') = [EvRemoveFailed "grids/300.png"].
Proof. split_and!; decide_by_vm. Qed.

(** Scenario 5: a game whose artwork cannot be fetched is added with an
    empty artwork path. *)
Example scenario_no_artwork :
  (add_new_games nt_platform {["200"]} ["200"] {[ "200" := "Game200" ]}
     (λ _ _, Fails FTimeout) "grids" (World ∅ ∅ [])).1
  = [new_app "Game200" "steam://rungameid/200" None].
Proof. decide_by_vm. Qed.

(** A full run that adds one game: the entry list is backed up and
    written once, after the add phase. *)
Example scenario_full_run :
  let r := main (Args false true false) full_env full_world in
  r.1 = Completed ∧
  trace r.2 =
    [EvBackup "cfg/apps.json.backup";
     EvSaveConfig "cfg/apps.json"
       [mk_app "Game1" "steam://rungameid/1" "";
        mk_app "Game2" "steam steam://rungameid/2" "";
        new_app "Game3" "steam steam://rungameid/3" None]].
Proof. split; decide_by_vm. Qed.

(** The same run with the entry list named by a bare file name: the
    backup is made, [os.makedirs("")] raises, nothing is written and the
    run is fatal. *)
Example scenario_bare_config_path :
  let r := main (Args false true false) abc_env stale_world in
  r.1 = Fatal ∧ trace r.2 = [EvBackup "apps.json.backup"].
Proof. split; decide_by_vm. Qed.

(** A game for which the flatpak probe raises something other than
    [FileNotFoundError] is skipped; its artwork has been fetched by then. *)
Example scenario_probe_raises :
  let pf := Platform "posix" None (λ id, bool_decide (id = "200"))
              posix_join posix_dirname in
  let r := add_new_games pf {["200"; "201"]} ["200"; "201"]
             {[ "200" := "Game200"; "201" := "Game201" ]}
             (λ _ _, Responds (["http://img"], Responds ImgValid)) "grids"
             (World ∅ ∅ []) in
  r.1 = [new_app "Game201" "steam steam://rungameid/201" (Some "grids/201.png")] ∧
  trace r.2 = [EvWriteGrid "grids/200.png"; EvWriteGrid "grids/201.png"].
Proof. split; decide_by_vm. Qed.

(** The artwork path is joined as [os.path.join] does: no second slash
    under a root folder. *)
Example scenario_root_folder :
  grid_target (posix_platform None) "/" "1" = "/1.png" ∧
  grid_target (posix_platform None) "grids/" "1" = "grids/1.png" ∧
  grid_target (posix_platform None) "grids" "1" = "grids/1.png" ∧
  grid_target nt_platform "grids" "1" = "grids\1.png".
Proof. split_and!; reflexivity. Qed.

(** A run the user interrupts ends with exit code 1, whatever it would
    have done. *)
Example scenario_interrupted :
  (main_interruptible (Args false true false) same_env stale_world None).1 = UpToDate ∧
  exit_code
    (main_interruptible (Args false true false) same_env stale_world
       (Some stale_world)).1 = 1.
Proof. split; decide_by_vm. Qed.

(** * Further properties of the code *)

(** ** The extractor: shape of the result, whitespace, letter case *)

Lemma take_digits_all_decimal s : all_decimal (take_digits s) = true.
Proof.
  induction s as [|c s IH]; simpl; [done|].
  destruct (Py.isdecimal c) eqn:Hc; simpl; [|done]. by rewrite Hc.
Qed.

Lemma match_at_decimal s d : match_at s = Some d → isdecimal d = true.
Proof.
  unfold match_at. destruct (match_literal_ci RUNGAME_MARKER s) as [rest|]; [|done].
  pose proof (take_digits_all_decimal rest) as Hall.
  destruct (take_digits rest) eqn:E; [done|]. by intros [= <-].
Qed.

Lemma re_search_decimal s d : re_search s = Some d → isdecimal d = true.
Proof.
  induction s as [|c s IH]; simpl; [done|].
  destruct (match_at (String c s)) eqn:E; [|done].
  intros [= <-]. by eapply match_at_decimal.
Qed.

(** X1. An identifier returned by the extractor is never empty and
    consists of decimal digits only. *)
Theorem extract_is_decimal (cmd d : string) :
  extract_steam_app_id cmd = Some d → isdecimal d = true.
Proof. destruct cmd; [done|]. apply re_search_decimal. Qed.

Lemma extract_is_decimal_witness :
  extract_steam_app_id "flatpak run x STEAM://rungameid/570abc" = Some "570" ∧
  isdecimal "570" = true.
Proof.
  split; [vm_compute; reflexivity|].
  apply (extract_is_decimal "flatpak run x STEAM://rungameid/570abc" "570").
  vm_compute. reflexivity.
Defined.

Lemma isspace_lower c : Py.isspace (Py.lower c) = Py.isspace c.
Proof. destruct c as [[] [] [] [] [] [] [] []]; vm_compute; reflexivity. Qed.

Lemma lower_eq_space p c : Py.lower p = Py.lower c → Py.isspace p = Py.isspace c.
Proof. intros H. by rewrite <-(isspace_lower p), <-(isspace_lower c), H. Qed.

Lemma rstrip_cons_nonspace c s :
  Py.isspace c = false → Py.rstrip (String c s) = String c (Py.rstrip s).
Proof. intros H. simpl. rewrite H. by destruct (Py.rstrip s). Qed.

Lemma rstrip_cons_cases c s :
  Py.rstrip (String c s) = "" ∧ Py.isspace c = true ∧ Py.rstrip s = ""
  ∨ Py.rstrip (String c s) = String c (Py.rstrip s).
Proof.
  simpl. destruct (Py.rstrip s) eqn:E; [|by right].
  destruct (Py.isspace c); [by left|by right].
Qed.

Lemma match_literal_ci_rstrip pat :
  no_space pat = true →
  ∀ s, match_literal_ci pat (Py.rstrip s) = Py.rstrip <$> match_literal_ci pat s.
Proof.
  induction pat as [|p pat IH]; intros Hpat s; [done|].
  simpl in Hpat. apply andb_true_iff in Hpat as [Hp Hpat].
  apply negb_true_iff in Hp.
  destruct s as [|c s]; [done|].
  destruct (decide (Py.lower p = Py.lower c)) as [Heq|Hne].
  - rewrite rstrip_cons_nonspace by (by rewrite <-(lower_eq_space p c Heq)).
    simpl. rewrite bool_decide_eq_true_2 by done. by apply IH.
  - destruct (rstrip_cons_cases c s) as [(-> & _)| ->]; simpl;
      by rewrite ?bool_decide_eq_false_2.
Qed.

Lemma take_digits_rstrip s : take_digits (Py.rstrip s) = take_digits s.
Proof.
  induction s as [|c s IH]; [done|].
  destruct (Py.isdecimal c) eqn:Hc.
  - rewrite rstrip_cons_nonspace by (by apply decimal_not_space).
    simpl. by rewrite Hc, IH.
  - destruct (rstrip_cons_cases c s) as [(-> & _)| ->]; simpl; by rewrite ?Hc.
Qed.

Lemma match_at_rstrip s : match_at (Py.rstrip s) = match_at s.
Proof.
  unfold match_at. rewrite match_literal_ci_rstrip by reflexivity.
  destruct (match_literal_ci RUNGAME_MARKER s) as [rest|]; simpl; [|done].
  by rewrite take_digits_rstrip.
Qed.

Lemma re_search_rstrip s : re_search (Py.rstrip s) = re_search s.
Proof.
  induction s as [|c s IH]; [done|].
  destruct (rstrip_cons_cases c s) as [(Hr & _ & Hs)|Hr].
  - pose proof (match_at_rstrip (String c s)) as Hm. rewrite Hr in Hm.
    rewrite Hs in IH. rewrite Hr. simpl. rewrite <-Hm, <-IH. done.
  - pose proof (match_at_rstrip (String c s)) as Hm. rewrite Hr in Hm.
    rewrite Hr. simpl. rewrite Hm, IH. done.
Qed.

Lemma match_at_space c s : Py.isspace c = true → match_at (String c s) = None.
Proof.
  intros Hc. unfold match_at, RUNGAME_MARKER. simpl.
  rewrite bool_decide_eq_false_2; [done|].
  intros Heq. apply lower_eq_space in Heq. by rewrite Hc in Heq.
Qed.

Lemma re_search_lstrip s : re_search (Py.lstrip s) = re_search s.
Proof.
  induction s as [|c s IH]; [done|].
  simpl Py.lstrip. destruct (Py.isspace c) eqn:Hc; [|done].
  rewrite IH. symmetry. apply re_search_skip. by apply match_at_space.
Qed.

Lemma re_search_strip s : re_search (Py.strip s) = re_search s.
Proof. unfold Py.strip. by rewrite re_search_rstrip, re_search_lstrip. Qed.

Lemma extract_re_search s : extract_steam_app_id s = re_search s.
Proof. by destruct s. Qed.

Lemma extract_strip cmd :
  extract_steam_app_id (Py.strip cmd) = extract_steam_app_id cmd.
Proof. by rewrite !extract_re_search, re_search_strip. Qed.

Lemma dedupe_id_reconcile_id (a : app) : dedupe_id a = reconcile_id a.
Proof. apply extract_strip. Qed.

(** X2. Surrounding white space never changes the identity of a
    command, so the deduplicator (which strips the command first) and the
    reconciler (which does not) see the same identifier in every entry. *)
Theorem strip_keeps_identity :
  (∀ cmd, extract_steam_app_id (Py.strip cmd) = extract_steam_app_id cmd) ∧
  (∀ a : app, dedupe_id a = reconcile_id a).
Proof. split; [apply extract_strip|apply dedupe_id_reconcile_id]. Qed.

Lemma match_literal_ci_variant pat m s :
  lower_string m = lower_string pat → match_literal_ci pat (m +:+ s) = Some s.
Proof.
  revert m. induction pat as [|p pat IH]; intros [|c m] Hm; try done.
  simpl in Hm. injection Hm as Hc Hm. simpl.
  rewrite bool_decide_eq_true_2 by done. by apply IH.
Qed.

Lemma re_search_app_Some pre s :
  is_Some (match_at s) → is_Some (re_search (pre +:+ s)).
Proof.
  intros [d Hd]. induction pre as [|c pre IH]; simpl.
  - exists d. by apply re_search_hit.
  - destruct (match_at (String c (pre +:+ s))); [by eexists|]. apply IH.
Qed.

(** X3. The marker is found anywhere in a command and in any letter
    case: a command that contains the marker, spelled with whatever mix of
    upper and lower case, directly followed by at least one digit, always
    yields an identifier (that of the leftmost such occurrence). *)
Theorem extract_finds_marker (pre m id post : string) :
  lower_string m = RUNGAME_MARKER →
  isdecimal id = true →
  is_Some (extract_steam_app_id (pre +:+ m +:+ id +:+ post)) ∧
  extract_steam_app_id (m +:+ id +:+ post) = Some (id +:+ take_digits post).
Proof.
  intros Hm Hid.
  assert (∀ p, all_decimal p = true → take_digits (p +:+ post) = p +:+ take_digits post)
    as Htd.
  { induction p as [|c p IH]; simpl; [done|].
    intros [Hc Hp]%andb_true_iff. by rewrite Hc, IH. }
  assert (match_at (m +:+ id +:+ post) = Some (id +:+ take_digits post)) as Hat.
  { unfold match_at. rewrite match_literal_ci_variant by done.
    destruct id as [|c id]; [done|]. rewrite Htd by done. done. }
  split.
  - rewrite extract_re_search. apply re_search_app_Some. by rewrite Hat.
  - rewrite extract_re_search. by apply re_search_hit.
Qed.

Lemma extract_finds_marker_witness :
  is_Some (extract_steam_app_id ("sh -c " +:+ "Steam://RunGameID/" +:+ "42" +:+ "7 &")) ∧
  extract_steam_app_id ("Steam://RunGameID/" +:+ "42" +:+ "7 &") = Some "427".
Proof.
  apply (extract_finds_marker "sh -c " "Steam://RunGameID/" "42" "7 &");
    vm_compute; reflexivity.
Defined.

(** ** The deduplicator: conservation, uniqueness, best score *)

Lemma insert_swap_Permutation {A} (l : list A) i x y :
  l !! i = Some x → <[i := y]> l ++ [x] ≡ₚ l ++ [y].
Proof.
  intros Hi. rewrite insert_take_drop by (by eapply lookup_lt_Some).
  rewrite <-(take_drop_middle l i x Hi) at 3.
  rewrite <-!app_assoc. simpl. apply Permutation_app_head.
  rewrite !(Permutation_app_comm (drop (S i) l)). simpl. apply perm_swap.
Qed.

Lemma dedupe_step_perm st a st' :
  dedupe_step st a = Some st' →
  deduped st' ++ removed st' ≡ₚ (deduped st ++ removed st) ++ [a].
Proof.
  destruct (dedupe_id a) as [id|] eqn:Hid.
  - rewrite (dedupe_step_tracked _ _ _ Hid).
    destruct (steam_index st !! id) as [i|].
    + destruct (deduped st !! i) as [current|] eqn:Hcur; [|done].
      destruct (_ <? _)%Z; intros [= <-]; simpl.
      * rewrite app_assoc, (Permutation_app_comm _ [current]), app_assoc.
        rewrite (Permutation_app_comm [current]).
        rewrite (insert_swap_Permutation _ _ _ a Hcur).
        rewrite <-!app_assoc. apply Permutation_app_head. apply Permutation_app_comm.
      * by rewrite app_assoc.
    + intros [= <-]; simpl. rewrite <-!app_assoc. apply Permutation_app_head.
      apply Permutation_app_comm.
  - rewrite (dedupe_step_opaque _ _ Hid).
    case_bool_decide; intros [= <-]; simpl.
    + by rewrite app_assoc.
    + rewrite <-!app_assoc. apply Permutation_app_head. apply Permutation_app_comm.
Qed.

Lemma dedupe_loop_perm l :
  ∀ st st', dedupe_loop st l = Some st' →
  deduped st' ++ removed st' ≡ₚ (deduped st ++ removed st) ++ l.
Proof.
  induction l as [|a l IH]; intros st st'; simpl.
  - intros [= <-]. by rewrite app_nil_r.
  - destruct (dedupe_step st a) as [st1|] eqn:Hs; [|done].
    intros Hl. rewrite (IH _ _ Hl), (dedupe_step_perm _ _ _ Hs).
    by rewrite <-app_assoc.
Qed.

(** X4. Deduplication loses and invents nothing: the kept and the
    removed entries together are a permutation of the input, so their
    numbers add up to the number of input entries. *)
Theorem dedupe_conserves (apps kept removed_ : list app) :
  dedupe_sunshine_apps apps = Some (kept, removed_) →
  kept ++ removed_ ≡ₚ apps ∧ length kept + length removed_ = length apps.
Proof.
  unfold dedupe_sunshine_apps.
  destruct (dedupe_loop dedupe_init apps) as [st|] eqn:Hl; [|done].
  intros [= <- <-]. pose proof (dedupe_loop_perm _ _ _ Hl) as Hp. simpl in Hp.
  split; [done|]. by rewrite <-length_app, Hp.
Qed.

Lemma dedupe_conserves_witness :
  [mk_app "G" "steam://rungameid/10" "x.png"; mk_app "Foo" "foo.sh" ""]
  ++ [mk_app "G" "steam://rungameid/10" ""]
  ≡ₚ [mk_app "G" "steam://rungameid/10" ""; mk_app "G" "steam://rungameid/10" "x.png";
      mk_app "Foo" "foo.sh" ""].
Proof.
  apply (dedupe_conserves
           [mk_app "G" "steam://rungameid/10" ""; mk_app "G" "steam://rungameid/10" "x.png";
            mk_app "Foo" "foo.sh" ""]).
  decide_by_vm.
Defined.

Lemma dedupe_result_inv apps kept removed_ :
  dedupe_sunshine_apps apps = Some (kept, removed_) →
  ∃ st, dedupe_loop dedupe_init apps = Some st ∧ dedupe_inv st ∧
        kept = deduped st ∧ removed_ = removed st ∧
        (∀ k, k ∈ keys (deduped st) ↔ k ∈ keys apps) ∧
        (∀ x, x ∈ deduped st → x ∈ apps).
Proof.
  intros H.
  destruct (dedupe_loop_inv apps dedupe_init dedupe_inv_init)
    as (st & Hl & Hinv & _ & Hsub & Hk).
  unfold dedupe_sunshine_apps in H. rewrite Hl in H. injection H as <- <-.
  exists st. split_and!; [done..| |].
  - intros k. rewrite Hk. simpl. rewrite elem_of_nil. naive_solver.
  - intros x Hx. destruct (Hsub x Hx) as [Hn|]; [|done]. by apply elem_of_nil in Hn.
Qed.

(** X5. After deduplication no two kept entries share a key (no two
    tracked entries the same identifier, no two opaque entries the same
    trimmed name and command), every key of the input is still
    represented, every kept entry comes from the input, and every removed
    entry has a kept counterpart with the same key. *)
Theorem dedupe_unique_keys (apps kept removed_ : list app) :
  dedupe_sunshine_apps apps = Some (kept, removed_) →
  NoDup (dedupe_key <$> kept) ∧
  (∀ i j x y, kept !! i = Some x → kept !! j = Some y →
              dedupe_key x = dedupe_key y → i = j) ∧
  (∀ e, e ∈ apps → ∃ c, c ∈ kept ∧ dedupe_key c = dedupe_key e) ∧
  (∀ c, c ∈ kept → c ∈ apps) ∧
  (∀ r, r ∈ removed_ → r ∈ apps ∧ ∃ c, c ∈ kept ∧ dedupe_key c = dedupe_key r).
Proof.
  intros H. pose proof H as (st & Hl & Hinv & -> & -> & Hk & Hsub)%dedupe_result_inv.
  assert (∀ e, e ∈ apps → ∃ c, c ∈ deduped st ∧ dedupe_key c = dedupe_key e) as Hrep.
  { intros e He.
    assert (dedupe_key e ∈ keys (deduped st)) as Hin.
    { apply Hk. unfold keys. apply list_elem_of_fmap. eauto. }
    apply list_elem_of_fmap in Hin as (c & ? & ?). eauto. }
  split_and!.
  - apply Hinv.
  - intros i j x y Hi Hj Hxy.
    apply (NoDup_lookup (keys (deduped st)) i j (dedupe_key x)); [apply Hinv|..].
    + apply keys_lookup. eauto.
    + apply keys_lookup. eauto.
  - done.
  - done.
  - intros r Hr.
    assert (r ∈ apps) as Hin.
    { pose proof (dedupe_loop_perm _ _ _ Hl) as Hp. simpl in Hp.
      rewrite <-Hp. apply elem_of_app. by right. }
    split; [done|]. by apply Hrep.
Qed.

Lemma dedupe_unique_keys_witness :
  NoDup (dedupe_key <$> [mk_app "G" "steam://rungameid/10" "x.png"; mk_app "Foo" "foo.sh" ""]).
Proof.
  apply (dedupe_unique_keys
           [mk_app "G" "steam://rungameid/10" ""; mk_app "G" "steam://rungameid/10" "x.png";
            mk_app "Foo" "foo.sh" ""] _ [mk_app "G" "steam://rungameid/10" ""]).
  decide_by_vm.
Defined.

(** X7. The removed list is empty exactly when the input has pairwise
    distinct keys, and then the kept list is the input itself, in order. *)
Theorem dedupe_nothing_removed (apps kept removed_ : list app) :
  dedupe_sunshine_apps apps = Some (kept, removed_) →
  (removed_ = [] ↔ NoDup (dedupe_key <$> apps)) ∧
  (removed_ = [] → kept = apps).
Proof.
  intros H. pose proof H as (st & Hl & Hinv & -> & -> & _)%dedupe_result_inv.
  assert (NoDup (dedupe_key <$> apps) →
          deduped st = apps ∧ removed st = []) as Hfresh.
  { intros Hnd.
    destruct (dedupe_loop_fresh apps dedupe_init dedupe_inv_init Hnd)
      as (st' & Hl' & Hd & Hr).
    assert (st' = st) as -> by congruence. by rewrite Hd, Hr. }
  assert (removed st = [] → NoDup (dedupe_key <$> apps)) as Hback.
  { intros Hr. pose proof (dedupe_loop_perm _ _ _ Hl) as Hp. simpl in Hp.
    rewrite Hr, app_nil_r in Hp. rewrite <-Hp. apply Hinv. }
  split.
  - split; [done|]. intros Hnd. by apply Hfresh.
  - intros Hr. by apply Hfresh, Hback.
Qed.

Lemma dedupe_nothing_removed_witness :
  (@nil app) = [] ↔
  NoDup (dedupe_key <$> [mk_app "G" "steam://rungameid/10" ""; mk_app "Foo" "foo.sh" ""]).
Proof.
  apply (dedupe_nothing_removed
           [mk_app "G" "steam://rungameid/10" ""; mk_app "Foo" "foo.sh" ""]
           [mk_app "G" "steam://rungameid/10" ""; mk_app "Foo" "foo.sh" ""] []).
  decide_by_vm.
Defined.

Lemma best_kept_snoc_kept seen kept a :
  best_kept seen kept → best_kept seen (kept ++ [a]).
Proof.
  intros Hb e id He Hid. destruct (Hb e id He Hid) as (i & c & Hi & Hc & Hs).
  exists i, c. split; [|done]. by apply lookup_app_l_Some.
Qed.

Lemma dedupe_step_best st a st' seen :
  dedupe_inv st → best_kept seen (deduped st) →
  dedupe_step st a = Some st' →
  best_kept (seen ++ [a]) (deduped st').
Proof.
  intros Hinv Hb.
  destruct (dedupe_id a) as [id|] eqn:Hid.
  - rewrite (dedupe_step_tracked _ _ _ Hid).
    destruct (steam_index st !! id) as [i|] eqn:Hidx.
    + destruct (deduped st !! i) as [current|] eqn:Hcur; [|done].
      assert (dedupe_id current = Some id) as Hcid.
      { apply dedupe_key_inl. apply (inv_index _ Hinv) in Hidx.
        apply keys_lookup in Hidx as (c & Hc & Hk). congruence. }
      destruct (_ <? _)%Z eqn:Hlt; intros [= <-]; simpl.
      * apply Z.ltb_lt in Hlt.
        intros e id' [He| ->%list_elem_of_singleton]%elem_of_app Hid'.
        -- destruct (Hb e id' He Hid') as (j & c & Hj & Hc & Hs).
           destruct (decide (i = j)) as [<-|Hne].
           ++ assert (c = current) as -> by congruence.
              assert (id' = id) as -> by congruence.
              exists i, a. split; [|split; [done|lia]].
              apply list_lookup_insert_eq. by eapply lookup_lt_Some.
           ++ exists j, c. split; [|done]. by rewrite list_lookup_insert_ne.
        -- exists i, a. split; [|split; [done|lia]].
           apply list_lookup_insert_eq. by eapply lookup_lt_Some.
      * apply Z.ltb_ge in Hlt.
        intros e id' [He| ->%list_elem_of_singleton]%elem_of_app Hid'.
        -- by apply Hb.
        -- assert (id' = id) as -> by congruence. by exists i, current.
    + intros [= <-]; simpl.
      intros e id' [He| ->%list_elem_of_singleton]%elem_of_app Hid'.
      * by apply (best_kept_snoc_kept seen (deduped st) a Hb e id').
      * exists (length (deduped st)), a. split; [|split; [done|lia]].
        by rewrite lookup_app_r, Nat.sub_diag.
  - rewrite (dedupe_step_opaque _ _ Hid).
    case_bool_decide; intros [= <-]; simpl;
      intros e id' [He| ->%list_elem_of_singleton]%elem_of_app Hid';
      try congruence;
      [by apply Hb|by apply (best_kept_snoc_kept seen (deduped st) a Hb e id')].
Qed.

Lemma dedupe_loop_best l :
  ∀ st st' seen, dedupe_inv st → best_kept seen (deduped st) →
  dedupe_loop st l = Some st' →
  best_kept (seen ++ l) (deduped st').
Proof.
  induction l as [|a l IH]; intros st st' seen Hinv Hb; simpl.
  - intros [= <-]. by rewrite app_nil_r.
  - destruct (dedupe_step_total st a Hinv) as (st1 & Hs & Hinv1 & _).
    rewrite Hs. intros Hl.
    replace (seen ++ a :: l) with ((seen ++ [a]) ++ l) by (by rewrite <-app_assoc).
    eapply IH; [exact Hinv1| |exact Hl].
    exact (dedupe_step_best st a st1 seen Hinv Hb Hs).
Qed.

(** X6. The kept entry of an identifier is a best one: for every tracked
    input entry there is a kept entry with the same identifier whose score
    is at least as high. *)
Theorem dedupe_keeps_best (apps kept removed_ : list app) :
  dedupe_sunshine_apps apps = Some (kept, removed_) →
  ∀ e id, e ∈ apps → dedupe_id e = Some id →
    ∃ c, c ∈ kept ∧ dedupe_id c = Some id ∧
         (_score_app_for_keep e ≤ _score_app_for_keep c)%Z.
Proof.
  intros (st & Hl & _ & -> & _)%dedupe_result_inv e id He Hid.
  assert (best_kept ([] ++ apps) (deduped st)) as Hb.
  { eapply dedupe_loop_best; [apply dedupe_inv_init| |exact Hl].
    intros ? ? Hn. by apply elem_of_nil in Hn. }
  destruct (Hb e id He Hid) as (i & c & Hi & Hc & Hs).
  exists c. split; [|done]. by eapply list_elem_of_lookup_2.
Qed.

Lemma dedupe_keeps_best_witness :
  ∃ c, c ∈ [mk_app "G" "steam://rungameid/10" "x.png"; mk_app "Foo" "foo.sh" ""] ∧
       dedupe_id c = Some "10" ∧
       (_score_app_for_keep (mk_app "G" "steam://rungameid/10" "")
        ≤ _score_app_for_keep c)%Z.
Proof.
  apply (dedupe_keeps_best
           [mk_app "G" "steam://rungameid/10" ""; mk_app "G" "steam://rungameid/10" "x.png";
            mk_app "Foo" "foo.sh" ""] _ [mk_app "G" "steam://rungameid/10" ""]).
  - decide_by_vm.
  - apply list_elem_of_here.
  - vm_compute. reflexivity.
Defined.

(** X8. The rule for an opaque entry [a] met after the entries [apps]:
    when no earlier entry has the same trimmed name and command it is kept
    at the end of the kept list; otherwise it is removed, whatever its
    score, and the kept list is unchanged. *)
Theorem dedupe_opaque_rule (apps : list app) (a : app) :
  dedupe_id a = None →
  ∃ kept removed_,
    dedupe_sunshine_apps apps = Some (kept, removed_) ∧
    ((Forall (λ e, dedupe_key e ≠ dedupe_key a) apps ∧
      dedupe_sunshine_apps (apps ++ [a]) = Some (kept ++ [a], removed_))
     ∨
     ((∃ e, e ∈ apps ∧ dedupe_id e = None ∧ opaque_key e = opaque_key a) ∧
      dedupe_sunshine_apps (apps ++ [a]) = Some (kept, removed_ ++ [a]))).
Proof.
  intros Hid.
  destruct (dedupe_sunshine_apps_Some apps) as (st & Hloop & Hinv & Hd).
  exists (deduped st), (removed st). split; [done|].
  pose proof Hd as (st' & Hl' & _ & _ & _ & Hk & _)%dedupe_result_inv.
  assert (st' = st) as -> by congruence.
  rewrite (dedupe_loop_snoc st) by done.
  rewrite (dedupe_step_opaque _ _ Hid).
  case_bool_decide as Hseen.
  - right. split; [|done].
    apply (inv_seen _ Hinv), Hk, list_elem_of_fmap in Hseen as (e & Hke & He).
    exists e. split; [done|]. unfold dedupe_key in Hke.
    destruct (dedupe_id e); [done|]. split; congruence.
  - left. split; [|done].
    apply Forall_forall. intros e He Hke. apply Hseen.
    apply (inv_seen _ Hinv), Hk, list_elem_of_fmap. exists e. split; [|done].
    by rewrite Hke, (dedupe_key_opaque _ Hid).
Qed.

Lemma dedupe_opaque_rule_witness :
  dedupe_sunshine_apps ([mk_app " Foo" "foo.sh " "x.png"] ++ [mk_app "Foo" "foo.sh" "y.png"])
  = Some ([mk_app " Foo" "foo.sh " "x.png"], [mk_app "Foo" "foo.sh" "y.png"]).
Proof.
  destruct (dedupe_opaque_rule [mk_app " Foo" "foo.sh " "x.png"] (mk_app "Foo" "foo.sh" "y.png"))
    as (kept & removed_ & Hd & [[Hall _]|[_ Hr]]).
  - vm_compute. reflexivity.
  - exfalso. apply Forall_cons in Hall as [Hne _]. apply Hne. vm_compute. reflexivity.
  - rewrite Hr. f_equal.
    assert (dedupe_sunshine_apps [mk_app " Foo" "foo.sh " "x.png"]
            = Some ([mk_app " Foo" "foo.sh " "x.png"], [])) as Hd' by decide_by_vm.
    rewrite Hd' in Hd. by injection Hd as <- <-.
Defined.

(** ** The network helpers: budget, success, soundness *)

Lemma attempts_budget body :
  let r := attempts_loop body (seq 0 3) 0 [] in
  (1 ≤ fr_requests r ≤ 3)%nat ∧
  fr_sleeps r = take (fr_requests r - 1) [1; 2] ∧
  (fr_requests r < 3 → ∃ k, fr_requests r = S k ∧ body k = Return (fr_result r)).
Proof.
  rewrite attempts_three.
  destruct (body 0) eqn:H0; simpl; [split_and!; try done; try lia; eauto|].
  destruct (body 1) eqn:H1; simpl; [split_and!; try done; try lia; eauto|].
  destruct (body 2) eqn:H2; simpl; split_and!; try done; lia.
Qed.

(** X9. Neither helper ever makes more than three requests or fewer than
    one, and the backoff is fixed by the number of requests made: 1 s
    after the first failed attempt, 2 s after the second, and no sleep
    after the attempt that ends the call (3 s at most in all). *)
Theorem retry_budget :
  (∀ (net : nat → attempt (gmap string appdetails)) app_id,
     (1 ≤ fr_requests (get_game_name net app_id) ≤ 3)%nat ∧
     fr_sleeps (get_game_name net app_id)
     = take (fr_requests (get_game_name net app_id) - 1) [1; 2] ∧
     (foldr Nat.add 0 (fr_sleeps (get_game_name net app_id)) ≤ 3)%nat) ∧
  (∀ (net : nat → grid_exchange) grid_path,
     (1 ≤ fr_requests (fetch_grid_from_steamgriddb net grid_path) ≤ 3)%nat ∧
     fr_sleeps (fetch_grid_from_steamgriddb net grid_path)
     = take (fr_requests (fetch_grid_from_steamgriddb net grid_path) - 1) [1; 2] ∧
     (foldr Nat.add 0 (fr_sleeps (fetch_grid_from_steamgriddb net grid_path)) ≤ 3)%nat).
Proof.
  assert (∀ body,
            (1 ≤ fr_requests (attempts_loop body (seq 0 3) 0 []) ≤ 3)%nat ∧
            fr_sleeps (attempts_loop body (seq 0 3) 0 [])
            = take (fr_requests (attempts_loop body (seq 0 3) 0 []) - 1) [1; 2] ∧
            (foldr Nat.add 0 (fr_sleeps (attempts_loop body (seq 0 3) 0 [])) ≤ 3)%nat) as H.
  { intros body. destruct (attempts_budget body) as (Hr & Hs & _).
    split; [done|]. split; [done|]. rewrite Hs.
    destruct (fr_requests _) as [|[|[|[|n]]]]; simpl; lia. }
  split; intros; apply H.
Qed.

Lemma name_body_Some net app_id k n :
  name_body net app_id k = Return (Some n) →
  n ≠ "" ∧ ∃ data d, net k = Responds data ∧ data !! app_id = Some d ∧
                      ad_success d = true ∧ ad_name d = Some n.
Proof.
  unfold name_body. destruct (net k) as [f|data].
  - by destruct f.
  - destruct (data !! app_id) as [d|] eqn:Hd; [|done].
    destruct (ad_success d) eqn:Hs; simpl; [|done].
    destruct (ad_name d) as [[|c n']|] eqn:Hn; simpl; try done.
    intros [= <-]. split; [done|]. eauto 10.
Qed.

Lemma grid_body_Some net grid_path k p :
  grid_body net grid_path k = Return (Some p) →
  p = grid_path ∧ ∃ u us, net k = Responds (u :: us, Responds ImgValid).
Proof.
  unfold grid_body. destruct (net k) as [f|[urls download]].
  - by destruct f.
  - destruct urls as [|u us]; [done|].
    destruct download as [f|[]]; [by destruct f| |done].
    intros [= <-]. eauto.
Qed.

Lemma attempts_Some body v :
  fr_result (attempts_loop body (seq 0 3) 0 []) = Some v →
  ∃ k, k < 3 ∧ body k = Return (Some v).
Proof.
  rewrite attempts_three.
  destruct (body 0) eqn:H0; simpl; [intros ->; exists 0; split; [lia|done]|].
  destruct (body 1) eqn:H1; simpl; [intros ->; exists 1; split; [lia|done]|].
  destruct (body 2) eqn:H2; simpl; [intros ->; exists 2; split; [lia|done]|done].
Qed.

Lemma get_game_name_Some net app_id n :
  fr_result (get_game_name net app_id) = Some n →
  n ≠ "" ∧ ∃ k data d, k < 3 ∧ net k = Responds data ∧ data !! app_id = Some d ∧
                        ad_success d = true ∧ ad_name d = Some n.
Proof.
  intros (k & Hk & Hb)%attempts_Some.
  apply name_body_Some in Hb as (Hn & data & d & ?). split; [done|]. eauto 10.
Qed.

(** X10. What the helpers return is backed by a response: a name comes
    from one of the three attempts whose answer lists the requested
    identifier with the success flag set and that very name, and is never
    empty; an artwork path is the target path and is returned only after
    an attempt that listed an url and downloaded a valid image. *)
Theorem fetch_results_sound :
  (∀ (net : nat → attempt (gmap string appdetails)) app_id n,
     fr_result (get_game_name net app_id) = Some n →
     n ≠ "" ∧
     ∃ k data d, k < 3 ∧ net k = Responds data ∧ data !! app_id = Some d ∧
                 ad_success d = true ∧ ad_name d = Some n) ∧
  (∀ (net : nat → grid_exchange) grid_path p,
     fr_result (fetch_grid_from_steamgriddb net grid_path) = Some p →
     p = grid_path ∧
     ∃ k u us, k < 3 ∧ net k = Responds (u :: us, Responds ImgValid)).
Proof.
  split.
  - apply get_game_name_Some.
  - intros net grid_path p (k & Hk & Hb)%attempts_Some.
    apply grid_body_Some in Hb as (-> & u & us & ?). split; [done|]. eauto 10.
Qed.

Lemma fetch_results_sound_witness :
  fr_result (get_game_name
               (λ n, match n with
                     | 0 => Fails FTimeout
                     | _ => Responds {[ "570" := AppDetails true (Some "Dota 2") ]}
                     end) "570") = Some "Dota 2" ∧
  "Dota 2" ≠ "".
Proof.
  assert (fr_result (get_game_name
               (λ n, match n with
                     | 0 => Fails FTimeout
                     | _ => Responds {[ "570" := AppDetails true (Some "Dota 2") ]}
                     end) "570") = Some "Dota 2") as H by (vm_compute; reflexivity).
  split; [exact H|].
  destruct fetch_results_sound as [Hname _].
  exact (proj1 (Hname _ _ _ H)).
Defined.

(** X11. A retry that succeeds: after [k] failures of the retried kind
    (k below 3), an answer that lists the identifier with the success flag
    and a non-empty name is returned as that name, and a listing with an
    url whose download is a valid image as the target path, after [k + 1]
    requests and the first [k] backoff sleeps. *)
Theorem retry_then_success :
  (∀ (net : nat → attempt (gmap string appdetails)) app_id k data c name,
     k < 3 →
     (∀ n, n < k → ∃ f, net n = Fails f ∧ retryable f = true) →
     net k = Responds data →
     data !! app_id = Some (AppDetails true (Some (String c name))) →
     get_game_name net app_id
     = FetchRun (Some (String c name)) (S k) (take k [1; 2])) ∧
  (∀ (net : nat → grid_exchange) grid_path k u us,
     k < 3 →
     (∀ n, n < k → ∃ f, retryable f = true ∧
        (net n = Fails f ∨ ∃ u us, net n = Responds (u :: us, Fails f))) →
     net k = Responds (u :: us, Responds ImgValid) →
     fetch_grid_from_steamgriddb net grid_path
     = FetchRun (Some grid_path) (S k) (take k [1; 2])).
Proof.
  split.
  - intros net app_id k data c name Hk Hbefore Hnet Hd.
    apply attempts_stop; [done| |].
    + intros n Hn. destruct (Hbefore n Hn) as (f & Hf & Hr).
      unfold name_body. rewrite Hf. by apply handle_retryable.
    + unfold name_body. by rewrite Hnet, Hd.
  - intros net grid_path k u us Hk Hbefore Hnet.
    apply attempts_stop; [done| |].
    + intros n Hn. destruct (Hbefore n Hn) as (f & Hr & [Hf|(u' & us' & Hf)]);
        unfold grid_body; rewrite Hf; by apply handle_retryable.
    + unfold grid_body. by rewrite Hnet.
Qed.

Lemma retry_then_success_witness :
  fetch_grid_from_steamgriddb
    (λ n, match n with
          | 0 => Fails FConnection
          | 1 => Responds (["http://img"], Fails FTimeout)
          | _ => Responds (["http://img"], Responds ImgValid)
          end) "grids/10.png"
  = FetchRun (Some "grids/10.png") 3 [1; 2].
Proof.
  destruct retry_then_success as [_ Hgrid].
  apply (Hgrid _ "grids/10.png" 2 "http://img" []).
  - lia.
  - intros [|[|n]] Hn; [| |lia].
    + exists FConnection. split; [reflexivity|]. by left.
    + exists FTimeout. split; [reflexivity|]. right. by exists "http://img", [].
  - reflexivity.
Defined.

(** ** Loading the installed games *)

Lemma truthy_name net app_id :
  Py.truthy (fr_result (get_game_name net app_id)) = true
  ↔ is_Some (fr_result (get_game_name net app_id)).
Proof.
  destruct (fr_result (get_game_name net app_id)) as [n|] eqn:Hr; simpl.
  - apply get_game_name_Some in Hr as [Hn _]. destruct n; [done|].
    split; [by eexists|done].
  - split; [done|]. by intros [? ?].
Qed.

Lemma load_fold_lookup name_net (ids : list string) :
  ∀ (m0 : gmap string string) id,
    foldl (λ (installed_games : gmap string string) app_id,
             let name := fr_result (get_game_name (name_net app_id) app_id) in
             if Py.truthy name
             then <[app_id := Py.or_empty name]> installed_games
             else installed_games) m0 ids !! id
    = if bool_decide (id ∈ ids)
      then match fr_result (get_game_name (name_net id) id) with
           | Some n => Some n
           | None => m0 !! id
           end
      else m0 !! id.
Proof.
  induction ids as [|a ids IH]; intros m0 id; simpl; [done|].
  rewrite IH. clear IH.
  pose proof (truthy_name (name_net a) a) as Ht.
  destruct (fr_result (get_game_name (name_net a) a)) as [n|] eqn:Hr; simpl in *.
  - rewrite (proj2 Ht) by (by eexists).
    destruct (decide (a = id)) as [->|Hne].
    + rewrite Hr, lookup_insert_eq.
      rewrite (bool_decide_eq_true_2 (id ∈ id :: ids)) by left.
      by case_bool_decide.
    + rewrite lookup_insert_ne by done.
      destruct (decide (id ∈ ids)) as [Hin|Hnin].
      * rewrite !bool_decide_eq_true_2; [done|by right|done].
      * rewrite !bool_decide_eq_false_2; [done| |done].
        rewrite elem_of_cons. naive_solver.
  - destruct (Py.truthy None) eqn:E; [done|].
    destruct (decide (a = id)) as [->|Hne].
    + rewrite Hr. rewrite (bool_decide_eq_true_2 (id ∈ id :: ids)) by left.
      by case_bool_decide.
    + destruct (decide (id ∈ ids)) as [Hin|Hnin].
      * rewrite !bool_decide_eq_true_2; [done|by right|done].
      * rewrite !bool_decide_eq_false_2; [done| |done].
        rewrite elem_of_cons. naive_solver.
Qed.

(** X12. Loading the installed games fails only when the manifest cannot
    be read.  Otherwise the map holds, for exactly the manifest's
    identifiers whose name lookup returned a name, that name: a failed
    lookup leaves out that one game and no other, every name is non-empty,
    and no identifier outside the manifest appears. *)
Theorem load_installed_games_spec
    (name_net : string → nat → attempt (gmap string appdetails)) :
  load_installed_games None name_net = None ∧
  ∀ ids, ∃ installed,
    load_installed_games (Some ids) name_net = Some installed ∧
    (∀ id, installed !! id =
             if bool_decide (id ∈ ids)
             then fr_result (get_game_name (name_net id) id)
             else None) ∧
    (∀ id name, installed !! id = Some name → id ∈ ids ∧ name ≠ "").
Proof.
  split; [done|]. intros ids. eexists. split; [done|].
  assert (∀ id,
    foldl (λ (installed_games : gmap string string) app_id,
             let name := fr_result (get_game_name (name_net app_id) app_id) in
             if Py.truthy name
             then <[app_id := Py.or_empty name]> installed_games
             else installed_games) ∅ ids !! id
    = if bool_decide (id ∈ ids)
      then fr_result (get_game_name (name_net id) id) else None) as H.
  { intros id. rewrite load_fold_lookup, lookup_empty.
    case_bool_decide; [|done]. by destruct (fr_result _). }
  split; [exact H|].
  intros id name. rewrite H. case_bool_decide; [|done].
  intros [Hn _]%get_game_name_Some. done.
Qed.

(** ** The reconciler: what survives *)

Lemma filter_omap_length installed (apps : list app) :
  length (filter (λ a, is_kept installed a = true) apps)
  + length (omap (dropped_pair installed) apps) = length apps.
Proof.
  induction apps as [|a apps IH]; [done|].
  rewrite filter_cons. csimpl. unfold is_kept, dropped_pair in *.
  destruct (reconcile_id a) as [id|]; [|simpl; lia].
  destruct (bool_decide (id ∈ dom installed)); simpl; lia.
Qed.

(** X13. After reconciliation every tracked entry that is kept has an
    installed identifier, the matched set is exactly the set of
    identifiers of the kept tracked entries, the kept list is the input
    with some entries left out (order unchanged), kept and removed add up
    to the input, and no file has appeared on disk. *)
Theorem reconcile_sound (apps : list app) (installed : gmap string string) (w : world) :
  (∀ a id, a ∈ updated_apps (process_existing_apps apps installed w) →
           reconcile_id a = Some id → id ∈ dom installed) ∧
  (∀ id, id ∈ existing_steam_apps (process_existing_apps apps installed w) ↔
         ∃ a, a ∈ updated_apps (process_existing_apps apps installed w) ∧
              reconcile_id a = Some id) ∧
  updated_apps (process_existing_apps apps installed w) `sublist_of` apps ∧
  length (updated_apps (process_existing_apps apps installed w))
  + length (removed_games (process_existing_apps apps installed w)) = length apps ∧
  files (rc_world (process_existing_apps apps installed w)) ⊆ files w.
Proof.
  destruct (process_existing_apps_spec apps installed w)
    as (Hu & Hr & He & _ & Hf & _).
  simpl in *. rewrite Hu, Hr, He, Hf.
  assert (∀ a id, a ∈ filter (λ a, is_kept installed a = true) apps →
            reconcile_id a = Some id → id ∈ dom installed) as Hkept.
  { intros a id [Hk _]%list_elem_of_filter Hid. unfold is_kept in Hk.
    rewrite Hid in Hk. by apply bool_decide_eq_true_1 in Hk. }
  split_and!.
  - done.
  - intros id. rewrite union_empty_l_L, matched_ids_spec, elem_of_intersection.
    unfold tracked_ids. rewrite elem_of_list_to_set, list_elem_of_omap. split.
    + intros [(a & Ha & Hid) Hin]. exists a. split; [|done].
      apply list_elem_of_filter. split; [|done].
      unfold is_kept. rewrite Hid. by apply bool_decide_eq_true_2.
    + intros (a & Ha & Hid). split; [|by eapply Hkept].
      apply list_elem_of_filter in Ha as [_ Ha]. eauto.
  - apply sublist_filter.
  - apply filter_omap_length.
  - set_solver.
Qed.

Lemma reconcile_sound_witness :
  "100" ∈ dom ({[ "100" := "Game100" ]} : gmap string string).
Proof.
  destruct (reconcile_sound
              [mk_app "Game100" "steam://rungameid/100" ""; mk_app "Old" "steam://rungameid/300" ""]
              {[ "100" := "Game100" ]} (World ∅ ∅ [])) as (H & _).
  apply (H (mk_app "Game100" "steam://rungameid/100" "")).
  - decide_by_vm.
  - vm_compute. reflexivity.
Defined.

(** ** The add phase *)

Lemma grid_fetch_path net grid_path p :
  fr_result (fetch_grid_from_steamgriddb net grid_path) = Some p → p = grid_path.
Proof.
  intros (k & Hk & Hb)%attempts_Some. by apply grid_body_Some in Hb as (-> & _).
Qed.

Lemma add_fold_spec pf installed net folder (order : list string) :
  ∀ (acc : list app) w,
    foldl (add_step pf installed net folder) (acc, w) order
    = (acc ++ omap (built_entry pf installed net folder) order,
       World (list_to_set (omap (fetched_grid pf net folder) order) ∪ files w)
             (locked w)
             (trace w ++ (EvWriteGrid <$> omap (fetched_grid pf net folder) order))).
Proof.
  induction order as [|id order IH]; intros acc w.
  - simpl. rewrite !app_nil_r, union_empty_l_L. by destruct w.
  - cbn [foldl].
    assert (add_step pf installed net folder (acc, w) id
            = (acc ++ omap (built_entry pf installed net folder) [id],
               World (list_to_set (omap (fetched_grid pf net folder) [id]) ∪ files w)
                     (locked w)
                     (trace w ++ (EvWriteGrid <$> omap (fetched_grid pf net folder) [id]))))
      as ->.
    { unfold add_step, built_entry. fold (fetched_grid pf net folder id). csimpl.
      destruct (fetched_grid pf net folder id) as [p|]; csimpl;
        destruct (installed !! id); csimpl;
        destruct (build_cmd_raises pf id); csimpl;
        rewrite ?app_nil_r, ?union_empty_l_L, ?union_empty_r_L; try done;
        by destruct w. }
    rewrite IH. cbn [files locked trace].
    change (id :: order) with ([id] ++ order).
    rewrite !omap_app, fmap_app, list_to_set_app_L, <-!app_assoc. f_equal.
    f_equal. set_solver.
Qed.

(** X14. The add phase, for a non-empty add-set, appends one entry per
    identifier of the completion order that has an installed name and for
    which the command builder returns, in that order, built from that
    name, the platform's command and the fetched artwork path; it appends
    nothing else.  A failed artwork fetch never drops the game: its entry
    is added with an empty artwork path.  A game for which the command
    builder raises (off Windows, the flatpak probe fails with something
    other than a missing binary) is skipped, its artwork fetched all the
    same.  Files are only added (the fetched artwork, at the path
    [os.path.join] gives), none is removed.  For an empty add-set nothing
    happens. *)
Theorem add_new_games_spec (pf : platform) (new_games : gset string)
    (order : list string) (installed : gmap string string)
    (net : string → nat → grid_exchange) (folder : string) (w : world) :
  (new_games = ∅ → add_new_games pf new_games order installed net folder w = ([], w)) ∧
  (new_games ≠ ∅ →
     (add_new_games pf new_games order installed net folder w).1
     = omap (built_entry pf installed net folder) order ∧
     (∀ id name, id ∈ order → installed !! id = Some name →
        build_cmd_raises pf id = false →
        ∃ a, a ∈ (add_new_games pf new_games order installed net folder w).1 ∧
             a !! "name" = Some name ∧ a !! "cmd" = Some (build_cmd pf id) ∧
             a !! "image-path" = Some (Py.or_empty (fetched_grid pf net folder id))) ∧
     (∀ a, a ∈ (add_new_games pf new_games order installed net folder w).1 →
        ∃ id name, id ∈ order ∧ installed !! id = Some name ∧
                   build_cmd_raises pf id = false ∧
                   a = new_app name (build_cmd pf id) (fetched_grid pf net folder id)) ∧
     files w ⊆ files (add_new_games pf new_games order installed net folder w).2 ∧
     trace (add_new_games pf new_games order installed net folder w).2
     = trace w ++ (EvWriteGrid <$> omap (fetched_grid pf net folder) order) ∧
     (∀ id p, fetched_grid pf net folder id = Some p →
        p = os_path_join pf folder (id +:+ ".png"))).
Proof.
  unfold add_new_games. split.
  - intros ->. by rewrite bool_decide_eq_true_2.
  - intros Hne. rewrite bool_decide_eq_false_2 by done.
    rewrite add_fold_spec. simpl. split_and!; [done| | |set_solver|done|].
    + intros id name Hin Hname Hok.
      exists (new_app name (build_cmd pf id) (fetched_grid pf net folder id)).
      split_and!.
      * apply list_elem_of_omap. exists id. split; [done|].
        unfold built_entry. by rewrite Hname, Hok.
      * apply new_app_name.
      * apply new_app_cmd.
      * unfold new_app. by simplify_map_eq.
    + intros a (id & Hin & Hb)%list_elem_of_omap. unfold built_entry in Hb.
      destruct (installed !! id) as [name|] eqn:Hname; [|done].
      destruct (build_cmd_raises pf id) eqn:Hok; [done|].
      exists id, name. by simplify_eq.
    + intros id p Hp. unfold fetched_grid in Hp.
      by apply grid_fetch_path in Hp.
Qed.

Lemma add_new_games_spec_witness :
  (add_new_games (posix_platform None) {["200"]} ["200"] {[ "200" := "Game200" ]}
     (λ _ _, Fails FTimeout) "grids" (World ∅ ∅ [])).1
  = omap (built_entry (posix_platform None) {[ "200" := "Game200" ]}
            (λ _ _, Fails FTimeout) "grids") ["200"].
Proof.
  apply (add_new_games_spec (posix_platform None) {["200"]} ["200"]
           {[ "200" := "Game200" ]} (λ _ _, Fails FTimeout) "grids" (World ∅ ∅ [])).
  decide_by_vm.
Defined.

(** ** The orchestrator: failure, effects, the saved list *)

Lemma load_installed_games_None library net :
  load_installed_games library net = None ↔ library = None.
Proof. unfold load_installed_games. by destruct library. Qed.

Lemma dedupe_total apps : is_Some (dedupe_sunshine_apps apps).
Proof. destruct (dedupe_sunshine_apps_Some apps) as (st & _ & _ & ->). by eexists. Qed.

Lemma makedirs_None ok path w : makedirs ok path w = None ↔ ok = false.
Proof.
  unfold makedirs. destruct ok; simpl; [|done].
  case_bool_decide; split; done.
Qed.

Lemma main_plan_fails a e w :
  (∃ w', main_plan a e w = inl w') ↔
  env_config e = None ∨ env_library e = None ∨ env_stored e = None
  ∨ env_makedirs_ok e = false.
Proof.
  unfold main_plan.
  destruct (env_config e) as [config|]; [|split; eauto].
  destruct (load_installed_games _ _) as [installed|] eqn:Hload.
  2:{ apply load_installed_games_None in Hload. split; eauto. }
  assert (env_library e ≠ None) as Hlib.
  { intros H. apply (load_installed_games_None _ (env_name_net e)) in H. congruence. }
  destruct (env_stored e) as [stored|]; [|split; eauto 6].
  destruct (dedupe_total stored) as [[kept dupes] ->].
  destruct (makedirs _ _ _) as [w1|] eqn:Hmk.
  - assert (env_makedirs_ok e ≠ false) as Hok.
    { intros H%(makedirs_None _ (SUNSHINE_GRIDS_FOLDER config)
                  (if no_restart a then w
                   else restart_steam (env_platform e) (STEAM_EXE_PATH config) w)).
      congruence. }
    split; [by intros [? ?]|]. intros [?|[?|[?|?]]]; done.
  - apply makedirs_None in Hmk. split; eauto 6.
Qed.

Lemma save_flag e path entries w :
  (save_sunshine_config e path entries w).1 = negb (save_raises e path w).
Proof.
  unfold save_sunshine_config, save_raises, make_parent, makedirs.
  destruct (bool_decide (path ∈ files w)), (env_copy_ok e),
    (bool_decide (os_path_dirname (env_platform e) path = "")),
    (env_parent_ok e), (env_save_ok e); simpl; try done;
    by case_bool_decide.
Qed.

Lemma main_unfold a e w p :
  main_plan a e w = inr p →
  ∃ final removed_after,
    dedupe_sunshine_apps
      (updated_apps (pl_reconciled p)
       ++ (add_new_games (env_platform e) (pl_new_games p)
             (env_order e (pl_new_games p)) (pl_installed p) (env_grid_net e)
             (SUNSHINE_GRIDS_FOLDER (pl_config p)) (rc_world (pl_reconciled p))).1)
    = Some (final, removed_after) ∧
    main a e w =
      if negb (changes_needed p) then (UpToDate, rc_world (pl_reconciled p))
      else if dry_run a then (DryRun, rc_world (pl_reconciled p))
      else
        let w1 := world_before_save e p in
        let w2 := (save_sunshine_config e
                     (SUNSHINE_APPS_JSON_PATH (pl_config p)) final w1).2 in
        if save_raises e (SUNSHINE_APPS_JSON_PATH (pl_config p)) w1
        then (Fatal, w2)
        else (Completed,
              if no_restart a then w2
              else restart_sunshine (env_platform e) (SUNSHINE_EXE_PATH (pl_config p)) w2).
Proof.
  intros Hp. unfold main, world_before_save. rewrite Hp.
  destruct (add_new_games _ _ _ _ _ _ _) as [new_apps w1] eqn:Hadd. simpl.
  destruct (dedupe_total (updated_apps (pl_reconciled p) ++ new_apps))
    as [[final removed_after] Hd].
  exists final, removed_after. split; [done|].
  destruct (negb _); [done|]. destruct (dry_run a); [done|]. rewrite Hd.
  pose proof (save_flag e (SUNSHINE_APPS_JSON_PATH (pl_config p)) final w1) as Hs.
  destruct (save_sunshine_config _ _ _ _) as [saved w2]. simpl in *. subst saved.
  by destruct (save_raises _ _ _).
Qed.


(** On [full_env] the run with changes due completes; with the write
    refused it is fatal; interrupted it exits with code 1 too. *)
Lemma main_fatal_iff_examples :
  exit_code (main_interruptible (Args false true false) full_env full_world None).1 = 0 ∧
  exit_code (main_interruptible (Args false true false) abc_env stale_world None).1 = 1 ∧
  exit_code (main_interruptible dry_args abc_env stale_world None).1 = 0 ∧
  exit_code (main_interruptible dry_args abc_env stale_world (Some stale_world)).1 = 1.
Proof. split_and!; decide_by_vm. Qed.

Lemma extends_refl P w : extends P w w.
Proof. exists []. by rewrite app_nil_r. Qed.

Lemma extends_trans P w1 w2 w3 : extends P w1 w2 → extends P w2 w3 → extends P w1 w3.
Proof.
  intros (evs1 & H1 & Hf1) (evs2 & H2 & Hf2). exists (evs1 ++ evs2).
  rewrite H2, H1, <-app_assoc. split; [done|]. by apply Forall_app.
Qed.

Lemma extends_emit (P : event → Prop) ev w : P ev → extends P w (emit ev w).
Proof. intros H. exists [ev]. split; [done|]. by constructor. Qed.

Lemma restart_steam_extends a e o exe w :
  no_restart a = false →
  extends (event_allowed a e o) w (restart_steam (env_platform e) exe w).
Proof.
  intros Hnr. unfold restart_steam.
  case_bool_decide as Hnt; simpl; [|apply extends_refl].
  case_bool_decide as Hexe; simpl; [apply extends_refl|].
  destruct (negb _); [apply extends_refl|].
  apply extends_emit. simpl. done.
Qed.


Lemma makedirs_extends a e o ok path w w' :
  makedirs ok path w = Some w' → extends (event_allowed a e o) w w'.
Proof.
  unfold makedirs. destruct (negb ok); [done|].
  case_bool_decide; intros [= <-]; [apply extends_refl|].
  exists [EvMakedirs path]. split; [done|]. by repeat constructor.
Qed.

Lemma reconcile_world_extends a e o (apps : list app) installed w :
  extends (event_allowed a e o) w (rc_world (process_existing_apps apps installed w)).
Proof.
  destruct (process_existing_apps_spec apps installed w)
    as (_ & _ & _ & _ & _ & evs & Ht & Hev).
  exists evs. split; [done|]. eapply Forall_impl; [exact Hev|].
  by intros [] Hr.
Qed.

Lemma main_plan_extends a e o w :
  match main_plan a e w with
  | inl w' => extends (event_allowed a e o) w w'
  | inr p => extends (event_allowed a e o) w (rc_world (pl_reconciled p))
  end.
Proof.
  unfold main_plan.
  destruct (env_config e) as [config|]; [|apply extends_refl].
  assert (extends (event_allowed a e o) w
            (if no_restart a then w
             else restart_steam (env_platform e) (STEAM_EXE_PATH config) w)) as H0.
  { destruct (no_restart a) eqn:Hnr; [apply extends_refl|].
    by apply restart_steam_extends. }
  destruct (load_installed_games _ _); [|done].
  destruct (env_stored e); [|done].
  destruct (dedupe_sunshine_apps _) as [[kept dupes]|]; [|done].
  destruct (makedirs _ _ _) as [w1|] eqn:Hmk; [|done].
  simpl. eapply extends_trans; [exact H0|].
  eapply extends_trans; [by eapply makedirs_extends|].
  apply reconcile_world_extends.
Qed.

Lemma add_world_extends a e o pf new_games order installed net folder w :
  dry_run a = false → o = Completed ∨ o = Fatal →
  extends (event_allowed a e o) w
    (add_new_games pf new_games order installed net folder w).2.
Proof.
  intros Hd Ho. unfold add_new_games.
  case_bool_decide; [apply extends_refl|].
  rewrite add_fold_spec. eexists. split; [done|].
  apply Forall_fmap, Forall_forall. intros p _. simpl. done.
Qed.

Lemma save_world_extends a e path entries w :
  dry_run a = false →
  extends (event_allowed a e (if save_raises e path w then Fatal else Completed)) w
    (save_sunshine_config e path entries w).2.
Proof.
  intros Hd. unfold save_sunshine_config, save_raises, make_parent, makedirs.
  destruct (bool_decide (path ∈ files w)), (env_copy_ok e),
    (bool_decide (os_path_dirname (env_platform e) path = "")),
    (env_parent_ok e), (env_save_ok e); simpl;
    try case_bool_decide; simpl;
    first [ apply extends_refl
          | eexists; rewrite <-?app_assoc; split; [done|];
            rewrite ?Forall_app, ?Forall_singleton; simpl; auto 10 ].
Qed.



Lemma restart_sunshine_trace pf exe w :
  ∃ post, trace (restart_sunshine pf exe w) = trace w ++ post ∧
          Forall (λ ev, ∃ x, ev = EvRestartSunshine x) post.
Proof.
  unfold restart_sunshine.
  destruct (negb _); [exists []; by rewrite app_nil_r|].
  destruct (_ || _); [exists []; by rewrite app_nil_r|].
  eexists [_]. split; [done|]. apply Forall_singleton. eauto.
Qed.

Lemma save_trace e path entries w :
  save_raises e path w = false →
  ∃ pre, trace (save_sunshine_config e path entries w).2
         = trace w ++ pre ++ [EvSaveConfig path entries] ∧
         Forall (λ ev, (∃ x, ev = EvBackup x) ∨ (∃ x, ev = EvMakedirs x)) pre.
Proof.
  unfold save_sunshine_config, save_raises, make_parent, makedirs.
  destruct (bool_decide (path ∈ files w)), (env_copy_ok e),
    (bool_decide (os_path_dirname (env_platform e) path = "")),
    (env_parent_ok e), (env_save_ok e); simpl; try done; intros _;
    case_bool_decide; simpl;
    first [ exists []; split; [done|]; by constructor
          | eexists [_]; rewrite <-?app_assoc; split; [done|];
            apply Forall_singleton; by eauto
          | eexists [_; _]; rewrite <-?app_assoc; split; [done|];
            apply Forall_cons; split; [by eauto|]; apply Forall_singleton; by eauto ].
Qed.

(** A run that completes: the plan it acted on, the list it saved and
    the shape of its trace. *)
Lemma main_completed a e w w' :
  main a e w = (Completed, w') →
  ∃ p final removed_after pre post,
    main_plan a e w = inr p ∧ changes_needed p = true ∧ dry_run a = false ∧
    save_raises e (SUNSHINE_APPS_JSON_PATH (pl_config p)) (world_before_save e p)
    = false ∧
    dedupe_sunshine_apps
      (updated_apps (pl_reconciled p)
       ++ (add_new_games (env_platform e) (pl_new_games p)
             (env_order e (pl_new_games p)) (pl_installed p) (env_grid_net e)
             (SUNSHINE_GRIDS_FOLDER (pl_config p)) (rc_world (pl_reconciled p))).1)
    = Some (final, removed_after) ∧
    trace w' = trace w ++ pre
               ++ [EvSaveConfig (SUNSHINE_APPS_JSON_PATH (pl_config p)) final] ++ post ∧
    (∀ q l, EvSaveConfig q l ∉ pre) ∧
    Forall (λ ev, ∃ x, ev = EvRestartSunshine x) post.
Proof.
  intros Hm.
  pose proof (main_plan_extends a e Fatal w) as Hplan.
  destruct (main_plan a e w) as [w0|p] eqn:Hp.
  { unfold main in Hm. by rewrite Hp in Hm. }
  destruct (main_unfold a e w p Hp) as (final & removed_after & Hd & Hm').
  rewrite Hm in Hm'. clear Hm.
  destruct (changes_needed p) eqn:Hc; simpl in Hm'; [|done].
  destruct (dry_run a) eqn:Hdry; [done|].
  cbv zeta in Hm'.
  destruct (save_raises _ _ _) eqn:Hs; [done|].
  injection Hm' as Hw'.
  set (w1 := world_before_save e p) in *.
  assert (extends (event_allowed a e Fatal) w w1) as (evs1 & Ht1 & Hev1).
  { eapply extends_trans; [exact Hplan|]. apply add_world_extends; auto. }
  destruct (save_trace e (SUNSHINE_APPS_JSON_PATH (pl_config p)) final w1 Hs)
    as (bk & Ht2 & Hbk).
  set (w2 := (save_sunshine_config e (SUNSHINE_APPS_JSON_PATH (pl_config p)) final w1).2)
    in *.
  assert (∃ post, trace w' = trace w2 ++ post ∧
                  Forall (λ ev, ∃ x, ev = EvRestartSunshine x) post)
    as (post & Ht3 & Hpost).
  { rewrite Hw'. destruct (no_restart a); [exists []; by rewrite app_nil_r|].
    apply restart_sunshine_trace. }
  exists p, final, removed_after, (evs1 ++ bk), post.
  split_and!; [done..| | |done].
  - rewrite Ht3, Ht2, Ht1, <-!app_assoc. done.
  - intros q l [Hin|Hin]%elem_of_app.
    + rewrite Forall_forall in Hev1. apply Hev1 in Hin. by destruct Hin.
    + rewrite Forall_forall in Hbk. by apply Hbk in Hin as [[x ?]|[x ?]].
Qed.

Lemma load_installed_dom ids net installed id :
  load_installed_games (Some ids) net = Some installed →
  id ∈ dom installed → id ∈ ids.
Proof.
  unfold load_installed_games. intros [= <-] [name Hn]%elem_of_dom.
  rewrite load_fold_lookup, lookup_empty in Hn.
  by case_bool_decide.
Qed.

Lemma add_new_games_entries pf new_games order installed net folder w :
  (add_new_games pf new_games order installed net folder w).1
  = if bool_decide (new_games = ∅) then []
    else omap (built_entry pf installed net folder) order.
Proof.
  unfold add_new_games. case_bool_decide; [done|]. by rewrite add_fold_spec.
Qed.

Lemma add_new_games_built pf new_games order installed net folder w :
  Forall (λ id, isdecimal id = true) order →
  Forall (built_for order installed)
    (add_new_games pf new_games order installed net folder w).1.
Proof.
  intros Hall. unfold add_new_games. case_bool_decide; [by constructor|].
  apply add_fold_built; [|by constructor].
  apply Forall_forall. intros id Hin. split; [|done].
  rewrite Forall_forall in Hall. auto.
Qed.

(** The list a completed run saves, given that the manifest's identifiers
    are decimal and that the completion order enumerates the add-set. *)
Lemma saved_list_props a e w p final removed_after :
  main_plan a e w = inr p →
  (∀ ids, env_library e = Some ids → Forall (λ id, isdecimal id = true) ids) →
  (∀ s id, id ∈ env_order e s ↔ id ∈ s) →
  dedupe_sunshine_apps
    (updated_apps (pl_reconciled p)
     ++ (add_new_games (env_platform e) (pl_new_games p)
           (env_order e (pl_new_games p)) (pl_installed p) (env_grid_net e)
           (SUNSHINE_GRIDS_FOLDER (pl_config p)) (rc_world (pl_reconciled p))).1)
  = Some (final, removed_after) →
  NoDup (dedupe_key <$> final) ∧
  (∀ id, (∃ x, x ∈ final ∧ reconcile_id x = Some id) → id ∈ dom (pl_installed p)) ∧
  (∀ id, id ∈ dom (pl_installed p) →
         id ∈ tracked_ids (pl_sunshine_apps p)
         ∨ build_cmd_raises (env_platform e) id = false →
         ∃ x, x ∈ final ∧ reconcile_id x = Some id) ∧
  (∀ id, build_cmd_raises (env_platform e) id = true →
         id ∉ tracked_ids (pl_sunshine_apps p) →
         ∀ x, x ∈ final → reconcile_id x ≠ Some id).
Proof.
  intros Hp Hdec Horder Hd.
  pose proof Hp as (stored & w0 & w1 & _ & _ & Hload & _ & _ & _ & Hrc & Hnew)%main_plan_inr.
  set (installed := pl_installed p) in *.
  assert (∀ id, id ∈ dom installed → isdecimal id = true) as Hdecimal.
  { intros id Hin. destruct (env_library e) as [ids|] eqn:Hlib; [|done].
    pose proof (Hdec ids eq_refl) as Hall. rewrite Forall_forall in Hall.
    apply Hall. by eapply load_installed_dom. }
  destruct (process_existing_apps_spec (pl_sunshine_apps p) installed w1)
    as (Hu & _ & He & _).
  rewrite <-Hrc in Hu, He. simpl in Hu, He.
  rewrite union_empty_l_L, matched_ids_spec in He.
  set (new_apps := (add_new_games (env_platform e) (pl_new_games p)
           (env_order e (pl_new_games p)) installed (env_grid_net e)
           (SUNSHINE_GRIDS_FOLDER (pl_config p)) (rc_world (pl_reconciled p))).1) in *.
  assert (Forall (built_for (env_order e (pl_new_games p)) installed) new_apps) as Hbuilt.
  { apply add_new_games_built. apply Forall_forall. intros id Hin.
    apply Hdecimal. apply Horder in Hin. rewrite Hnew in Hin. set_solver. }
  pose proof Hd as (st & _ & Hinv & -> & _ & Hk & Hsub)%dedupe_result_inv.
  split; [apply Hinv|].
  split; [|split]; intros id.
  3:{ intros Hr Hnt x Hx Hid. apply Hsub, elem_of_app in Hx as [Hx|Hx].
    - rewrite Hu in Hx. apply list_elem_of_filter in Hx as [_ Hx].
      apply Hnt. unfold tracked_ids. apply elem_of_list_to_set, list_elem_of_omap.
      eauto.
    - unfold new_apps in Hx. rewrite add_new_games_entries in Hx.
      case_bool_decide; [by apply elem_of_nil in Hx|].
      apply list_elem_of_omap in Hx as (id' & Hin' & Hb).
      unfold built_entry in Hb.
      destruct (installed !! id') as [name|] eqn:Hname; [|done].
      destruct (build_cmd_raises (env_platform e) id') eqn:Hr'; [done|].
      injection Hb as <-.
      assert (isdecimal id' = true) as Hdec'.
      { apply Hdecimal, elem_of_dom. by eexists. }
      destruct (new_app_tracked (env_platform e) id' name
                  (fetched_grid (env_platform e) (env_grid_net e)
                     (SUNSHINE_GRIDS_FOLDER (pl_config p)) id') Hdec') as [Hrid _].
      rewrite Hrid in Hid. congruence. }
  2:{ intros Hin Hok.
    assert (inl id ∈ keys (updated_apps (pl_reconciled p) ++ new_apps)) as Hkey.
    { unfold keys. rewrite fmap_app, elem_of_app.
      destruct (decide (id ∈ tracked_ids (pl_sunshine_apps p))) as [Ht|Hnt].
      - left. unfold tracked_ids in Ht.
        apply elem_of_list_to_set, list_elem_of_omap in Ht as (x & Hx & Hid).
        apply list_elem_of_fmap. exists x. split.
        + symmetry. apply dedupe_key_inl. by rewrite dedupe_id_reconcile_id.
        + rewrite Hu. apply list_elem_of_filter. split; [|done].
          unfold is_kept. rewrite Hid. by apply bool_decide_eq_true_2.
      - right.
        assert (id ∈ pl_new_games p) as Hng by (rewrite Hnew, He; set_solver).
        apply elem_of_dom in Hin as [name Hname].
        apply list_elem_of_fmap.
        exists (new_app name (build_cmd (env_platform e) id)
                  (fetched_grid (env_platform e) (env_grid_net e)
                     (SUNSHINE_GRIDS_FOLDER (pl_config p)) id)).
        split.
        + symmetry. apply dedupe_key_inl.
          apply new_app_tracked. apply Hdecimal. apply elem_of_dom. by eexists.
        + unfold new_apps. rewrite add_new_games_entries.
          rewrite bool_decide_eq_false_2 by set_solver.
          apply list_elem_of_omap. exists id. split; [by apply Horder|].
          unfold built_entry. rewrite Hname.
          destruct Hok as [? | ->]; done. }
    apply Hk, list_elem_of_fmap in Hkey as (c & Hkc & Hc).
    exists c. split; [done|]. rewrite <-dedupe_id_reconcile_id.
    by apply dedupe_key_inl. }
  - intros (x & Hx & Hid). apply Hsub, elem_of_app in Hx as [Hx|Hx].
    + rewrite Hu in Hx. apply list_elem_of_filter in Hx as [Hkept _].
      unfold is_kept in Hkept. rewrite Hid in Hkept.
      by apply bool_decide_eq_true_1 in Hkept.
    + rewrite Forall_forall in Hbuilt.
      destruct (Hbuilt x Hx) as (id' & name & _ & Hname & _ & Hid' & _).
      assert (id' = id) as -> by congruence.
      apply elem_of_dom. by eexists.
Qed.

Lemma omap_Forall_None {A B} (f : A → option B) (l : list A) :
  Forall (λ a, f a = None) l → omap f l = [].
Proof. induction 1 as [|a l Ha _ IH]; csimpl; [done|]. by rewrite Ha. Qed.

Lemma dedupe_of_unique (l : list app) :
  NoDup (dedupe_key <$> l) → dedupe_sunshine_apps l = Some (l, []).
Proof.
  intros Hnd.
  destruct (dedupe_loop_fresh l dedupe_init dedupe_inv_init Hnd) as (st & Hl & Hd & Hr).
  unfold dedupe_sunshine_apps. by rewrite Hl, Hd, Hr.
Qed.

(** X17. The list a completed run saves.  Provided the manifest's
    identifiers are decimal and the completion order enumerates the
    add-set, the run writes the entry list exactly once, and the list
    written has pairwise distinct keys, holds no tracked entry for an
    identifier that is not installed, at most one for any identifier, and
    one for every installed game for which the command builder returns.
    An installed game for which the command builder raises, and which no
    stored entry tracks, is missing from the list although the run
    completes. *)
Theorem completed_run_saved_list (a : args) (e : environment) (w w' : world) :
  main a e w = (Completed, w') →
  (∀ ids, env_library e = Some ids → Forall (λ id, isdecimal id = true) ids) →
  (∀ s id, id ∈ env_order e s ↔ id ∈ s) →
  ∃ config installed stored final pre post,
    env_config e = Some config ∧
    load_installed_games (env_library e) (env_name_net e) = Some installed ∧
    env_stored e = Some stored ∧
    trace w' = trace w ++ pre
               ++ [EvSaveConfig (SUNSHINE_APPS_JSON_PATH config) final] ++ post ∧
    (∀ q l, EvSaveConfig q l ∉ pre) ∧ (∀ q l, EvSaveConfig q l ∉ post) ∧
    NoDup (dedupe_key <$> final) ∧
    (∀ id, (∃ x, x ∈ final ∧ reconcile_id x = Some id) → id ∈ dom installed) ∧
    (∀ id, id ∈ dom installed → build_cmd_raises (env_platform e) id = false →
           ∃ x, x ∈ final ∧ reconcile_id x = Some id) ∧
    (∀ id, build_cmd_raises (env_platform e) id = true →
           (∀ s, s ∈ stored → reconcile_id s ≠ Some id) →
           ∀ x, x ∈ final → reconcile_id x ≠ Some id) ∧
    (∀ i j x y id, final !! i = Some x → final !! j = Some y →
                   reconcile_id x = Some id → reconcile_id y = Some id → i = j).
Proof.
  intros Hm Hdec Horder.
  destruct (main_completed a e w w' Hm)
    as (p & final & removed_after & pre & post & Hp & _ & _ & _ & Hd & Ht & Hpre & Hpost).
  destruct (saved_list_props a e w p final removed_after Hp Hdec Horder Hd)
    as (Hnd & Honly & Hall & Hskip).
  pose proof Hp as (stored & w0 & w1 & Hcfg & _ & Hload & Hst & Hdd & _)%main_plan_inr.
  exists (pl_config p), (pl_installed p), stored, final, pre, post.
  split_and!; [done..| |done|done| | |].
  - intros q l Hin. rewrite Forall_forall in Hpost. by apply Hpost in Hin as [x ?].
  - intros id Hin Hok. apply Hall; auto.
  - intros id Hr Hno. apply Hskip; [done|].
    unfold tracked_ids. intros (x & Hx & Hid)%elem_of_list_to_set%list_elem_of_omap.
    pose proof Hdd as (st & _ & _ & Hk & _ & _ & Hsub)%dedupe_result_inv.
    rewrite Hk in Hx. apply Hsub in Hx. by apply (Hno x).
  - intros i j x y id Hi Hj Hx Hy.
    apply (NoDup_lookup (dedupe_key <$> final) i j (inl id)); [done|..];
      rewrite list_lookup_fmap.
    + rewrite Hi. simpl. f_equal. apply dedupe_key_inl.
      by rewrite dedupe_id_reconcile_id.
    + rewrite Hj. simpl. f_equal. apply dedupe_key_inl.
      by rewrite dedupe_id_reconcile_id.
Qed.

Lemma completed_run_saved_list_witness :
  ∃ final pre post,
    trace (main (Args false true false) full_env full_world).2
    = trace full_world ++ pre ++ [EvSaveConfig "cfg/apps.json" final] ++ post ∧
    NoDup (dedupe_key <$> final) ∧
    ∃ x, x ∈ final ∧ reconcile_id x = Some "3".
Proof.
  assert ((main (Args false true false) full_env full_world).1 = Completed) as Ho
    by decide_by_vm.
  destruct (main (Args false true false) full_env full_world) as [o w'] eqn:E.
  simpl in Ho. subst o.
  destruct (completed_run_saved_list _ _ _ _ E)
    as (config & installed & stored & final & pre & post & Hcfg & Hload & _ & Ht & _ & _
        & Hnd & _ & Hall & _).
  - intros ids [= <-]. repeat (constructor; [reflexivity|]). constructor.
  - intros s id. apply elem_of_elements.
  - injection Hcfg as <-. exists final, pre, post. split_and!; [done|done|].
    apply Hall; [|reflexivity].
    unfold load_installed_games, full_env in Hload.
    cbn [env_library env_name_net] in Hload. injection Hload as <-.
    decide_by_vm.
Defined.

(** X18. A completed run in which the command builder raised for no game
    leaves nothing to do.  Under the same two conditions, running the tool
    again on the list just saved, with the same installed games and
    whatever flags and state of the disk, finds no duplicate, no
    uninstalled game and no game to add, and reports "up to date". *)
Theorem second_run_up_to_date (a : args) (e : environment) (w w' : world) :
  main a e w = (Completed, w') →
  (∀ ids, env_library e = Some ids → Forall (λ id, isdecimal id = true) ids) →
  (∀ s id, id ∈ env_order e s ↔ id ∈ s) →
  (∀ id, build_cmd_raises (env_platform e) id = false) →
  ∃ config final pre post,
    env_config e = Some config ∧
    trace w' = trace w ++ pre
               ++ [EvSaveConfig (SUNSHINE_APPS_JSON_PATH config) final] ++ post ∧
    (∀ q l, EvSaveConfig q l ∉ pre) ∧
    ∀ a2 w2, ∃ p2,
      main_plan a2 (with_stored e final) w2 = inr p2 ∧
      pl_removed_dupes p2 = [] ∧ removed_games (pl_reconciled p2) = [] ∧
      pl_new_games p2 = ∅ ∧
      (main a2 (with_stored e final) w2).1 = UpToDate.
Proof.
  intros Hm Hdec Horder Hcmd.
  destruct (main_completed a e w w' Hm)
    as (p & final & removed_after & pre & post & Hp & _ & _ & _ & Hd & Ht & Hpre & Hpost).
  destruct (saved_list_props a e w p final removed_after Hp Hdec Horder Hd)
    as (Hnd & Honly & Hall & _).
  pose proof Hp as (stored & w0 & w1 & Hcfg & _ & Hload & _)%main_plan_inr.
  exists (pl_config p), final, pre, post. split_and!; [done..|].
  intros a2 w2.
  assert (¬ (env_config e = None ∨ env_library e = None ∨ env_stored e = None
             ∨ env_makedirs_ok e = false)) as Hok.
  { intros H. apply (main_plan_fails a e w) in H as [w'' Hw'']. congruence. }
  destruct (main_plan a2 (with_stored e final) w2) as [w''|p2] eqn:Hp2.
  { exfalso. assert (∃ w'', main_plan a2 (with_stored e final) w2 = inl w'') as H
      by eauto.
    apply main_plan_fails in H. simpl in H.
    destruct H as [?|[?|[?|?]]]; [tauto|tauto|done|tauto]. }
  pose proof Hp2 as (stored2 & w02 & w12 & _ & _ & Hload2 & Hst2 & Hd2 & _ & Hrc2 & Hnew2)
    %main_plan_inr.
  simpl in Hload2, Hst2. injection Hst2 as <-.
  assert (pl_installed p2 = pl_installed p) as Hinst by congruence.
  rewrite (dedupe_of_unique final Hnd) in Hd2. injection Hd2 as Hs2 Hdup2.
  destruct (process_existing_apps_spec (pl_sunshine_apps p2) (pl_installed p2) w12)
    as (_ & Hr & He & _).
  rewrite <-Hrc2 in Hr, He. simpl in Hr, He.
  rewrite union_empty_l_L, matched_ids_spec in He.
  rewrite <-Hs2, Hinst in Hr, He.
  assert (removed_games (pl_reconciled p2) = []) as Hrem.
  { rewrite Hr. apply omap_Forall_None, Forall_forall. intros x Hx.
    unfold dropped_pair. destruct (reconcile_id x) as [id|] eqn:Hid; [|done].
    rewrite bool_decide_eq_true_2; [done|]. apply Honly. eauto. }
  assert (pl_new_games p2 = ∅) as Hng.
  { rewrite Hnew2, He, Hinst. apply set_eq. intros id.
    rewrite elem_of_difference, elem_of_intersection.
    split; [|by intros ?%not_elem_of_empty].
    intros [Hin Hnot]. exfalso. apply Hnot. split; [|done].
    destruct (Hall id Hin) as (x & Hx & Hid); [by right|].
    unfold tracked_ids. apply elem_of_list_to_set, list_elem_of_omap. eauto. }
  exists p2. split_and!; [done|done|done|done|].
  destruct (main_unfold a2 (with_stored e final) w2 p2 Hp2)
    as (final2 & removed2 & _ & ->).
  unfold changes_needed. rewrite <-Hdup2, Hrem, Hng.
  by rewrite !bool_decide_eq_true_2.
Qed.

Lemma second_run_up_to_date_witness :
  ∃ final,
    (∃ pre post, trace (main (Args false true false) full_env full_world).2
                 = trace full_world ++ pre ++ [EvSaveConfig "cfg/apps.json" final] ++ post) ∧
    (main dry_args (with_stored full_env final) full_world).1 = UpToDate.
Proof.
  assert ((main (Args false true false) full_env full_world).1 = Completed) as Ho
    by decide_by_vm.
  destruct (main (Args false true false) full_env full_world) as [o w'] eqn:E.
  simpl in Ho. subst o.
  destruct (second_run_up_to_date _ _ _ _ E)
    as (config & final & pre & post & Hcfg & Ht & _ & Hagain).
  - intros ids [= <-]. repeat (constructor; [reflexivity|]). constructor.
  - intros s id. apply elem_of_elements.
  - intros id. reflexivity.
  - injection Hcfg as <-. exists final. split; [by exists pre, post|].
    by destruct (Hagain dry_args full_world) as (p2 & _ & _ & _ & _ & ?).
Defined.

Lemma built_keys pf installed net folder (order : list string) :
  Forall (λ id, isdecimal id = true) order → NoDup order →
  NoDup (keys (omap (built_entry pf installed net folder) order)) ∧
  ∀ k, k ∈ keys (omap (built_entry pf installed net folder) order) →
       ∃ id, id ∈ order ∧ k = inl id.
Proof.
  induction order as [|id order IH]; intros Hdec Hnd.
  - split; [constructor|]. intros k Hk. by apply elem_of_nil in Hk.
  - apply Forall_cons in Hdec as [Hid Hdec]. apply NoDup_cons in Hnd as [Hnin Hnd].
    destruct (IH Hdec Hnd) as [IHnd IHin]. csimpl.
    destruct (built_entry pf installed net folder id) as [x|] eqn:Hb.
    + assert (dedupe_key x = inl id) as Hkx.
      { unfold built_entry in Hb. destruct (installed !! id) as [name|]; [|done].
        destruct (build_cmd_raises pf id); [done|].
        injection Hb as <-. by apply dedupe_key_tracked, new_app_tracked. }
      unfold keys in *. rewrite fmap_cons, Hkx. split.
      * apply NoDup_cons. split; [|done].
        intros (id' & Hin & [= ->])%IHin. done.
      * intros k [->|Hk]%elem_of_cons; [exists id; split; [left|done]|].
        destruct (IHin k Hk) as (id' & ? & ?). exists id'. split; [by right|done].
    + split; [done|]. intros k Hk.
      destruct (IHin k Hk) as (id' & ? & ?). exists id'. split; [by right|done].
Qed.

(** X19. The safety-net dedupe has nothing to do in a regular run.
    When the manifest's identifiers are decimal and the completion order
    lists every game of the add-set once, the entries kept by the
    reconciler followed by the new entries have pairwise distinct keys, so
    the final dedupe returns exactly that list, in that order, and removes
    nothing. *)
Theorem safety_net_removes_nothing (a : args) (e : environment) (w : world) (p : plan) :
  main_plan a e w = inr p →
  (∀ ids, env_library e = Some ids → Forall (λ id, isdecimal id = true) ids) →
  NoDup (env_order e (pl_new_games p)) →
  (∀ id, id ∈ env_order e (pl_new_games p) ↔ id ∈ pl_new_games p) →
  dedupe_sunshine_apps
    (updated_apps (pl_reconciled p)
     ++ (add_new_games (env_platform e) (pl_new_games p)
           (env_order e (pl_new_games p)) (pl_installed p) (env_grid_net e)
           (SUNSHINE_GRIDS_FOLDER (pl_config p)) (rc_world (pl_reconciled p))).1)
  = Some (updated_apps (pl_reconciled p)
          ++ (add_new_games (env_platform e) (pl_new_games p)
                (env_order e (pl_new_games p)) (pl_installed p) (env_grid_net e)
                (SUNSHINE_GRIDS_FOLDER (pl_config p)) (rc_world (pl_reconciled p))).1,
          []).
Proof.
  intros Hp Hdec Hnd Horder.
  pose proof Hp as (stored & w0 & w1 & _ & _ & Hload & _ & Hdd & _ & Hrc & Hnew)%main_plan_inr.
  apply dedupe_of_unique. fold (keys (updated_apps (pl_reconciled p) ++
    (add_new_games (env_platform e) (pl_new_games p)
       (env_order e (pl_new_games p)) (pl_installed p) (env_grid_net e)
       (SUNSHINE_GRIDS_FOLDER (pl_config p)) (rc_world (pl_reconciled p))).1)).
  destruct (process_existing_apps_spec (pl_sunshine_apps p) (pl_installed p) w1)
    as (Hu & _ & He & _).
  rewrite <-Hrc in Hu, He. simpl in Hu, He.
  rewrite union_empty_l_L, matched_ids_spec in He.
  assert (Forall (λ id, isdecimal id = true) (env_order e (pl_new_games p))) as Hodec.
  { apply Forall_forall. intros id Hin. apply Horder in Hin.
    destruct (env_library e) as [ids|] eqn:Hlib; [|done].
    pose proof (Hdec ids eq_refl) as Hall. rewrite Forall_forall in Hall.
    apply Hall. eapply load_installed_dom; [exact Hload|]. rewrite Hnew in Hin. set_solver. }
  rewrite add_new_games_entries.
  assert (NoDup (keys (updated_apps (pl_reconciled p)))) as Hkept.
  { pose proof Hdd as (st & _ & Hinv & Hk & _)%dedupe_result_inv.
    eapply sublist_NoDup; [apply (inv_nodup _ Hinv)|].
    rewrite Hu, <-Hk. unfold keys. apply fmap_sublist, sublist_filter. }
  case_bool_decide as Hng; [by rewrite app_nil_r|].
  destruct (built_keys (env_platform e) (pl_installed p) (env_grid_net e)
              (SUNSHINE_GRIDS_FOLDER (pl_config p)) _ Hodec Hnd) as [Hbnd Hbin].
  unfold keys in *. rewrite fmap_app. apply NoDup_app. split; [done|]. split; [|done].
  intros k Hk (id & Hin & ->)%Hbin.
  apply Horder in Hin. rewrite Hnew, He in Hin.
  apply elem_of_difference in Hin as [Hdom Hnot]. apply Hnot.
  apply elem_of_intersection. split; [|done].
  apply list_elem_of_fmap in Hk as (x & Hkx & Hx).
  unfold tracked_ids. apply elem_of_list_to_set, list_elem_of_omap.
  exists x. split.
  - rewrite Hu in Hx. by apply list_elem_of_filter in Hx as [_ ?].
  - rewrite <-dedupe_id_reconcile_id. by apply dedupe_key_inl.
Qed.

Lemma safety_net_removes_nothing_witness :
  ∃ final, dedupe_sunshine_apps final = Some (final, []) ∧ length final = 3.
Proof.
  destruct (main_plan (Args false true false) abc_env stale_world) as [w|p] eqn:E.
  { exfalso.
    assert (match main_plan (Args false true false) abc_env stale_world with
            | inr _ => True | inl _ => False end) as H by (vm_compute; exact I).
    by rewrite E in H. }
  eexists. split.
  - apply (safety_net_removes_nothing _ _ _ _ E).
    + intros ids [= <-]. repeat (constructor; [reflexivity|]). constructor.
    + apply NoDup_elements.
    + intros id. apply elem_of_elements.
  - apply (plan_property
             (λ q, length (updated_apps (pl_reconciled q)
                           ++ (add_new_games (env_platform abc_env) (pl_new_games q)
                                 (env_order abc_env (pl_new_games q)) (pl_installed q)
                                 (env_grid_net abc_env)
                                 (SUNSHINE_GRIDS_FOLDER (pl_config q))
                                 (rc_world (pl_reconciled q))).1) = 3) _ _ E).
    vm_compute. reflexivity.
Defined.

(** X23. An entry list named by a path without a directory part cannot
    be saved.  [os.makedirs(os.path.dirname(path))] is then called on the
    empty string and raises, so a run with changes due, outside a dry run,
    is fatal: whatever else succeeds, it writes no entry list and does not
    restart the target launcher. *)
Theorem save_needs_directory (a : args) (e : environment) (w : world) (p : plan) :
  main_plan a e w = inr p → changes_needed p = true → dry_run a = false →
  os_path_dirname (env_platform e) (SUNSHINE_APPS_JSON_PATH (pl_config p)) = "" →
  (main a e w).1 = Fatal ∧
  ∃ evs, trace (main a e w).2 = trace w ++ evs ∧
         Forall (λ ev, (∀ q l, ev ≠ EvSaveConfig q l) ∧
                       (∀ x, ev ≠ EvRestartSunshine x)) evs.
Proof.
  intros Hp Hc Hdry Hdir.
  pose proof (main_plan_extends a e Fatal w) as Hplan. rewrite Hp in Hplan.
  destruct (main_unfold a e w p Hp) as (final & removed_after & _ & ->).
  rewrite Hc, Hdry. cbv zeta. simpl.
  pose proof (save_world_extends a e (SUNSHINE_APPS_JSON_PATH (pl_config p)) final
                (world_before_save e p) Hdry) as Hsave.
  assert (save_raises e (SUNSHINE_APPS_JSON_PATH (pl_config p)) (world_before_save e p)
          = true) as Hs.
  { unfold save_raises. rewrite (bool_decide_eq_true_2 _ Hdir).
    by rewrite orb_true_r. }
  rewrite Hs in Hsave |- *. simpl. split; [done|].
  assert (extends (event_allowed a e Fatal) w
            (save_sunshine_config e (SUNSHINE_APPS_JSON_PATH (pl_config p)) final
               (world_before_save e p)).2) as (evs & Ht & Hall).
  { eapply extends_trans; [exact Hplan|].
    eapply extends_trans; [apply add_world_extends; auto|]. exact Hsave. }
  exists evs. split; [done|].
  eapply Forall_impl; [exact Hall|].
  intros ev Hev. split; intros; intros ->; simpl in Hev; by destruct_and?.
Qed.

Lemma save_needs_directory_witness :
  (main (Args false true false) abc_env stale_world).1 = Fatal.
Proof.
  destruct (main_plan (Args false true false) abc_env stale_world) as [w|p] eqn:E.
  { exfalso.
    assert (match main_plan (Args false true false) abc_env stale_world with
            | inr _ => True | inl _ => False end) as H by (vm_compute; exact I).
    by rewrite E in H. }
  apply (save_needs_directory _ _ _ _ E).
  - apply (plan_property (λ q, changes_needed q = true) _ _ E). vm_compute. reflexivity.
  - reflexivity.
  - apply (plan_property
             (λ q, os_path_dirname (env_platform abc_env)
                     (SUNSHINE_APPS_JSON_PATH (pl_config q)) = "") _ _ E).
    vm_compute. reflexivity.
Defined.

(** ** Configuration *)

Lemma getenv_first_truthy os names v :
  getenv_first os names = Some v → Py.truthy (Some v) = true.
Proof.
  induction names as [|name rest IH]; simpl; [done|].
  destruct (Py.truthy (os_getenv os name)) eqn:Ht; [|done].
  intros H. by rewrite H in Ht.
Qed.

(** X20. The first name with a non-empty value wins: [getenv_first]
    returns a value exactly when some name of the list has a non-empty
    value and every name before it is unset or empty, and it returns that
    value; so the canonical name takes precedence over its aliases, and a
    variable set to the empty string counts as unset. *)
Theorem getenv_first_spec (os : os_env) (names : list string) (v : string) :
  getenv_first os names = Some v ↔
  v ≠ "" ∧
  ∃ before name after,
    names = before ++ name :: after ∧
    os_getenv os name = Some v ∧
    Forall (λ n, os_getenv os n = None ∨ os_getenv os n = Some "") before.
Proof.
  split.
  - intros H. split.
    { apply getenv_first_truthy in H. by destruct v. }
    induction names as [|name rest IH]; simpl in H; [done|].
    destruct (Py.truthy (os_getenv os name)) eqn:Ht.
    + exists [], name, rest. split; [done|]. split; [done|]. constructor.
    + destruct (IH H) as (before & n & after & -> & Hn & Hb).
      exists (name :: before), n, after. split; [done|]. split; [done|].
      constructor; [|done].
      destruct (os_getenv os name) as [[|c x]|]; [by right|done|by left].
  - intros (Hv & before & name & after & -> & Hn & Hb).
    induction Hb as [|n before Hn' _ IH]; simpl.
    + rewrite Hn. by destruct v.
    + destruct Hn' as [-> | ->]; simpl; apply IH.
Qed.

Lemma getenv_first_spec_witness :
  getenv_first
    (OsEnv (λ n, if bool_decide (n = "STEAM_EXE_PATH") then Some ""
                 else if bool_decide (n = "steam_exe_path") then Some "C:\steam.exe"
                 else None) id id (λ _, true))
    ["STEAM_EXE_PATH"; "steam_exe_path"] = Some "C:\steam.exe".
Proof.
  apply getenv_first_spec. split; [done|].
  exists ["STEAM_EXE_PATH"], "steam_exe_path", []. split; [done|].
  split; [reflexivity|]. apply Forall_singleton. by right.
Defined.

Lemma validate_fold_missing os tbl :
  ∀ acc, (foldl (validate_step os) acc tbl).2 = acc.2 ++ omap (missing_message os) tbl.
Proof.
  induction tbl as [|[[canonical aliases] description] tbl IH]; intros acc.
  - csimpl. by rewrite app_nil_r.
  - cbn [foldl]. rewrite IH. csimpl. unfold validate_step.
    destruct (Py.truthy (getenv_first os aliases)); simpl; [done|].
    by rewrite <-app_assoc.
Qed.

Lemma validate_step_path os acc canonical aliases description v :
  getenv_first os aliases = Some v →
  ends_with "_PATH" canonical || ends_with "_FOLDER" canonical = true →
  validate_step os acc (canonical, aliases, description)
  = (<[canonical := normalize_path os v]> acc.1, acc.2).
Proof.
  intros Hv Hp. unfold validate_step.
  by rewrite Hv, (getenv_first_truthy _ _ _ Hv), Hp.
Qed.

Lemma validate_step_plain os acc canonical aliases description v :
  getenv_first os aliases = Some v →
  ends_with "_PATH" canonical || ends_with "_FOLDER" canonical = false →
  validate_step os acc (canonical, aliases, description)
  = (<[canonical := v]> acc.1, acc.2).
Proof.
  intros Hv Hp. unfold validate_step.
  by rewrite Hv, (getenv_first_truthy _ _ _ Hv), Hp.
Qed.

Lemma validate_fold_config os v a g k :
  getenv_first os ["STEAM_LIBRARY_VDF_PATH"; "steam_library_vdf_path"; "library_vdf_path"]
  = Some v →
  getenv_first os ["SUNSHINE_APPS_JSON_PATH"; "sunshine_apps_json_path"; "apps_json_path"]
  = Some a →
  getenv_first os ["SUNSHINE_GRIDS_FOLDER"; "sunshine_grids_folder"; "grids_folder"]
  = Some g →
  getenv_first os ["STEAMGRIDDB_API_KEY"; "steamgriddb_api_key"] = Some k →
  (foldl (validate_step os) (∅, []) required_vars).1
  = <["STEAMGRIDDB_API_KEY" := k]>
      (<["SUNSHINE_GRIDS_FOLDER" := normalize_path os g]>
         (<["SUNSHINE_APPS_JSON_PATH" := normalize_path os a]>
            (<["STEAM_LIBRARY_VDF_PATH" := normalize_path os v]> ∅))).
Proof.
  intros Hv Ha Hg Hk. unfold required_vars. cbn [foldl].
  rewrite (validate_step_path _ _ _ _ _ _ Hv) by reflexivity.
  rewrite (validate_step_path _ _ _ _ _ _ Ha) by reflexivity.
  rewrite (validate_step_path _ _ _ _ _ _ Hg) by reflexivity.
  rewrite (validate_step_plain _ _ _ _ _ _ Hk) by reflexivity.
  done.
Qed.

Lemma truthy_Some_getenv os names :
  Py.truthy (getenv_first os names) = true ↔ is_Some (getenv_first os names).
Proof.
  destruct (getenv_first os names) as [v|] eqn:Hv.
  - rewrite (getenv_first_truthy _ _ _ Hv). split; [by eexists|done].
  - split; [done|]. by intros [? ?].
Qed.

(** X21. Missing settings are reported together and before anything
    else.  [validate_config] ends with the "missing variables" error
    exactly when one of the four required variables has no non-empty value
    under any of its names; the report then lists every such variable, in
    the order of the table, and no path is looked at.  Looking up a key of
    the configuration never fails. *)
Theorem validate_config_missing (os : os_env) :
  validate_config os ≠ KeyError ∧
  ∀ l, validate_config os = Invalid l ↔
       l ≠ [] ∧ l = omap (missing_message os) required_vars.
Proof.
  unfold validate_config. rewrite validate_fold_missing. cbn [fst snd].
  rewrite app_nil_l.
  destruct (omap (missing_message os) required_vars) as [|m l'] eqn:Hm.
  - apply omap_nil_Forall in Hm. unfold required_vars in Hm.
    apply Forall_cons in Hm as [H1 Hm]. apply Forall_cons in Hm as [H2 Hm].
    apply Forall_cons in Hm as [H3 Hm]. apply Forall_cons in Hm as [H4 _].
    unfold missing_message in H1, H2, H3, H4.
    destruct (Py.truthy (getenv_first os
      ["STEAM_LIBRARY_VDF_PATH"; "steam_library_vdf_path"; "library_vdf_path"]))
      eqn:T1; [|done].
    destruct (Py.truthy (getenv_first os
      ["SUNSHINE_APPS_JSON_PATH"; "sunshine_apps_json_path"; "apps_json_path"]))
      eqn:T2; [|done].
    destruct (Py.truthy (getenv_first os
      ["SUNSHINE_GRIDS_FOLDER"; "sunshine_grids_folder"; "grids_folder"]))
      eqn:T3; [|done].
    destruct (Py.truthy (getenv_first os ["STEAMGRIDDB_API_KEY"; "steamgriddb_api_key"]))
      eqn:T4; [|done].
    apply truthy_Some_getenv in T1 as [v Hv]. apply truthy_Some_getenv in T2 as [a Ha].
    apply truthy_Some_getenv in T3 as [g Hg]. apply truthy_Some_getenv in T4 as [k Hk].
    rewrite (validate_fold_config os v a g k Hv Ha Hg Hk).
    unfold to_config.
    rewrite !(lookup_insert_ne _ "SUNSHINE_EXE_PATH") by done.
    rewrite !(lookup_insert_ne _ "STEAM_EXE_PATH") by done.
    rewrite !lookup_insert_eq.
    rewrite !(lookup_insert_ne _ "STEAMGRIDDB_API_KEY") by done.
    rewrite !lookup_insert_eq.
    rewrite !(lookup_insert_ne _ "SUNSHINE_GRIDS_FOLDER") by done.
    rewrite !lookup_insert_eq.
    rewrite !(lookup_insert_ne _ "SUNSHINE_APPS_JSON_PATH") by done.
    rewrite !lookup_insert_eq.
    split.
    + by repeat case_match.
    + intros l. split; [by repeat case_match|]. by intros [? ?].
  - split; [done|]. intros l. split.
    + intros [= <-]. done.
    + intros [_ ->]. done.
Qed.

Lemma validate_config_all_set os v a g k :
  getenv_first os ["STEAM_LIBRARY_VDF_PATH"; "steam_library_vdf_path"; "library_vdf_path"]
  = Some v →
  getenv_first os ["SUNSHINE_APPS_JSON_PATH"; "sunshine_apps_json_path"; "apps_json_path"]
  = Some a →
  getenv_first os ["SUNSHINE_GRIDS_FOLDER"; "sunshine_grids_folder"; "grids_folder"]
  = Some g →
  getenv_first os ["STEAMGRIDDB_API_KEY"; "steamgriddb_api_key"] = Some k →
  validate_config os =
    if negb (os_exists os (normalize_path os v))
    then LibraryNotFound (normalize_path os v)
    else if Py.truthy (Some (os_dirname os (normalize_path os a)))
            && negb (os_exists os (os_dirname os (normalize_path os a)))
    then ConfigDirNotFound (os_dirname os (normalize_path os a))
    else Valid (Config (normalize_path os v) (normalize_path os a)
                  (normalize_path os g) k
                  (optional_exe os ["STEAM_EXE_PATH"; "steam_exe_path"])
                  (optional_exe os ["SUNSHINE_EXE_PATH"; "sunshine_exe_path"])).
Proof.
  intros Hv Ha Hg Hk.
  unfold validate_config. rewrite validate_fold_missing. cbn [fst snd].
  rewrite app_nil_l.
  assert (omap (missing_message os) required_vars = []) as ->.
  { apply omap_Forall_None. unfold required_vars.
    repeat (apply Forall_cons; split); [..|apply Forall_nil_2];
      unfold missing_message.
    - by rewrite Hv, (getenv_first_truthy _ _ _ Hv).
    - by rewrite Ha, (getenv_first_truthy _ _ _ Ha).
    - by rewrite Hg, (getenv_first_truthy _ _ _ Hg).
    - by rewrite Hk, (getenv_first_truthy _ _ _ Hk). }
  rewrite (validate_fold_config os v a g k Hv Ha Hg Hk).
  unfold to_config.
  rewrite !(lookup_insert_ne _ "SUNSHINE_EXE_PATH") by done.
  rewrite !(lookup_insert_ne _ "STEAM_EXE_PATH") by done.
  rewrite !lookup_insert_eq.
  rewrite !(lookup_insert_ne _ "STEAMGRIDDB_API_KEY") by done.
  rewrite !lookup_insert_eq.
  rewrite !(lookup_insert_ne _ "SUNSHINE_GRIDS_FOLDER") by done.
  rewrite !lookup_insert_eq.
  rewrite !(lookup_insert_ne _ "SUNSHINE_APPS_JSON_PATH") by done.
  rewrite !lookup_insert_eq.
  done.
Qed.

Lemma validate_config_Valid_set os c :
  validate_config os = Valid c →
  ∃ v a g k,
    getenv_first os ["STEAM_LIBRARY_VDF_PATH"; "steam_library_vdf_path"; "library_vdf_path"]
    = Some v ∧
    getenv_first os ["SUNSHINE_APPS_JSON_PATH"; "sunshine_apps_json_path"; "apps_json_path"]
    = Some a ∧
    getenv_first os ["SUNSHINE_GRIDS_FOLDER"; "sunshine_grids_folder"; "grids_folder"]
    = Some g ∧
    getenv_first os ["STEAMGRIDDB_API_KEY"; "steamgriddb_api_key"] = Some k.
Proof.
  unfold validate_config. rewrite validate_fold_missing. cbn [fst snd].
  rewrite app_nil_l.
  destruct (omap (missing_message os) required_vars) as [|m l'] eqn:Hm; [|done].
  intros _.
  apply omap_nil_Forall in Hm. unfold required_vars in Hm.
  apply Forall_cons in Hm as [H1 Hm]. apply Forall_cons in Hm as [H2 Hm].
  apply Forall_cons in Hm as [H3 Hm]. apply Forall_cons in Hm as [H4 _].
  unfold missing_message in H1, H2, H3, H4.
  destruct (Py.truthy (getenv_first os
    ["STEAM_LIBRARY_VDF_PATH"; "steam_library_vdf_path"; "library_vdf_path"]))
    eqn:T1; [|done].
  destruct (Py.truthy (getenv_first os
    ["SUNSHINE_APPS_JSON_PATH"; "sunshine_apps_json_path"; "apps_json_path"]))
    eqn:T2; [|done].
  destruct (Py.truthy (getenv_first os
    ["SUNSHINE_GRIDS_FOLDER"; "sunshine_grids_folder"; "grids_folder"]))
    eqn:T3; [|done].
  destruct (Py.truthy (getenv_first os ["STEAMGRIDDB_API_KEY"; "steamgriddb_api_key"]))
    eqn:T4; [|done].
  apply truthy_Some_getenv in T1 as [v Hv]. apply truthy_Some_getenv in T2 as [a Ha].
  apply truthy_Some_getenv in T3 as [g Hg]. apply truthy_Some_getenv in T4 as [k Hk].
  eauto 10.
Qed.

(** X22. When the configuration is accepted.  [validate_config] returns
    a configuration exactly when each of the four required variables has a
    non-empty value under one of its names, the normalized library
    manifest path exists, and the directory of the normalized entry-list
    path is empty or exists.  The three paths are returned normalized, the
    API key as it was given, and each optional executable path normalized,
    or empty when it is not set. *)
Theorem validate_config_valid (os : os_env) (c : config) :
  validate_config os = Valid c ↔
  ∃ v a g k,
    getenv_first os ["STEAM_LIBRARY_VDF_PATH"; "steam_library_vdf_path"; "library_vdf_path"]
    = Some v ∧
    getenv_first os ["SUNSHINE_APPS_JSON_PATH"; "sunshine_apps_json_path"; "apps_json_path"]
    = Some a ∧
    getenv_first os ["SUNSHINE_GRIDS_FOLDER"; "sunshine_grids_folder"; "grids_folder"]
    = Some g ∧
    getenv_first os ["STEAMGRIDDB_API_KEY"; "steamgriddb_api_key"] = Some k ∧
    os_exists os (normalize_path os v) = true ∧
    (os_dirname os (normalize_path os a) = ""
     ∨ os_exists os (os_dirname os (normalize_path os a)) = true) ∧
    c = Config (normalize_path os v) (normalize_path os a) (normalize_path os g) k
          (optional_exe os ["STEAM_EXE_PATH"; "steam_exe_path"])
          (optional_exe os ["SUNSHINE_EXE_PATH"; "sunshine_exe_path"]).
Proof.
  split.
  - intros H. pose proof H as (v & a & g & k & Hv & Ha & Hg & Hk)%validate_config_Valid_set.
    rewrite (validate_config_all_set os v a g k Hv Ha Hg Hk) in H.
    exists v, a, g, k. split_and!; [done..| | |].
    + by destruct (os_exists os (normalize_path os v)).
    + destruct (os_exists os (normalize_path os v)); [|done]. simpl in H.
      destruct (os_dirname os (normalize_path os a)) as [|ch d]; [by left|right].
      simpl in H. by destruct (os_exists os (String ch d)).
    + destruct (os_exists os (normalize_path os v)); [|done]. simpl in H.
      destruct (_ && _); [done|]. by injection H.
  - intros (v & a & g & k & Hv & Ha & Hg & Hk & He & Hd & ->).
    rewrite (validate_config_all_set os v a g k Hv Ha Hg Hk), He. simpl.
    destruct Hd as [-> | ->]; [done|]. by rewrite andb_false_r.
Qed.

(** An alias is accepted, the API key is taken as it is, and an unset
    executable path comes back empty. *)
Example validate_config_accepts :
  validate_config
    (os_of [("STEAM_LIBRARY_VDF_PATH", "lib.vdf"); ("apps_json_path", "cfg/apps.json");
            ("SUNSHINE_GRIDS_FOLDER", "grids"); ("STEAMGRIDDB_API_KEY", "k\\ey");
            ("STEAM_EXE_PATH", "")]
           ["lib.vdf"; "cfg"])
  = Valid (Config "lib.vdf" "cfg/apps.json" "grids" "k\\ey" "" "").
Proof. decide_by_vm. Qed.

(** Two settings are missing (one of them set, but empty): both are
    reported, in the order of the table, although the library manifest
    does not exist either. *)
Example validate_config_reports_all :
  validate_config
    (os_of [("STEAM_LIBRARY_VDF_PATH", "lib.vdf"); ("SUNSHINE_APPS_JSON_PATH", "");
            ("SUNSHINE_GRIDS_FOLDER", "grids")]
           [])
  = Invalid ["SUNSHINE_APPS_JSON_PATH (Sunshine apps.json file path)";
             "STEAMGRIDDB_API_KEY (SteamGridDB API key)"].
Proof. decide_by_vm. Qed.

Example validate_config_no_library :
  validate_config
    (os_of [("STEAM_LIBRARY_VDF_PATH", "C:\\steam\\lib.vdf");
            ("SUNSHINE_APPS_JSON_PATH", "cfg/apps.json");
            ("SUNSHINE_GRIDS_FOLDER", "grids"); ("STEAMGRIDDB_API_KEY", "k")]
           ["cfg"])
  = LibraryNotFound "C:\steam\lib.vdf".
Proof. decide_by_vm. Qed.
